(** * RVJIT: the block-in-progress, its register allocator and code buffer

    A shallow embedding of [src/rvjit/rvjit.h] (RVVM's retargetable JIT).
    Machine integers are [Z] with their wrap-around written out, the
    working buffer is a list of bytes, the two hash maps of the heap are
    finite maps, NULL-able function pointers are options. *)

From Stdlib Require Import ZArith Lia Bool List.
From stdpp Require Import base option list gmap.

Local Open Scope Z_scope.

(** ** Host targets

    The [#if] chain at the top of rvjit.h selects one of these targets and
    defines the capability macros accordingly. *)

Inductive host_arch : Type :=
  | HOST_X86_64   (* __x86_64__ / _M_AMD64 *)
  | HOST_I386     (* __i386__ / _M_IX86 *)
  | HOST_RISCV64  (* __riscv, __riscv_xlen == 64 *)
  | HOST_RISCV32  (* __riscv, __riscv_xlen == 32 *)
  | HOST_ARM64    (* __aarch64__ / _M_ARM64 *)
  | HOST_ARM.     (* __arm__ / _M_ARM *)

(** [#ifdef RVJIT_NATIVE_64BIT] *)
Definition RVJIT_NATIVE_64BIT (h : host_arch) : bool :=
  match h with
  | HOST_X86_64 | HOST_RISCV64 | HOST_ARM64 => true
  | HOST_I386 | HOST_RISCV32 | HOST_ARM => false
  end.

(** [#ifdef RVJIT_NATIVE_LINKER] *)
Definition RVJIT_NATIVE_LINKER (h : host_arch) : bool :=
  match h with
  | HOST_ARM => false
  | _ => true
  end.

(** Width of [size_t] on the target: 64 bits on the 64-bit hosts, 32 bits on
    the others. *)
Definition size_t_bits (h : host_arch) : Z :=
  if RVJIT_NATIVE_64BIT h then 64 else 32.

(** ** Constants *)

Definition REG_ILL : Z := 0xFF.
Definition RVJIT_REGISTERS : Z := 32.
Definition RVJIT_REGISTER_ZERO : Z := 0.

Definition LINKAGE_NONE : Z := 0.
Definition LINKAGE_TAIL : Z := 1.
Definition LINKAGE_JMP : Z := 2.

(** ** Data model *)

(** [rvjit_func_t]: a pointer to emitted code, given by its offset in the
    code heap; [None] is the NULL pointer. *)
Definition rvjit_func_t : Type := option Z.

(** [rvjit_heap_t]; its fields carry the prefix [heap_], as the block has
    fields of the same names.  [heap_code] is the arena ([data] and [code] are the
    writable and the executable view of the same bytes), [heap_blocks] maps
    [phys_pc] to the entry offset of a block, [heap_block_links] maps a
    target [phys_pc] to the jump sites waiting for it, [heap_dirty_pages] is
    the array of 32-bit words of the dirty bitmap, given by its non-zero
    words. *)
Record rvjit_heap_t : Type := mk_heap {
  heap_code : list Byte.byte;
  heap_curr : Z;
  heap_size : Z;
  heap_blocks : gmap Z Z;
  heap_block_links : gmap Z (list Z);
  heap_dirty_pages : gmap Z Z;
  heap_dirty_mask : Z
}.

Record rvjit_reginfo_t : Type := mk_reginfo {
  last_used : Z;
  auipc_off : Z;
  hreg : Z;
  flags : Z
}.

(** [rvjit_block_t].  [links] holds the pairs [(dest, ptr)]. *)
Record rvjit_block_t : Type := mk_block {
  heap : rvjit_heap_t;
  links : list (Z * Z);
  code : list Byte.byte;
  size : Z;
  space : Z;
  hreg_mask : Z;
  abireclaim_mask : Z;
  regs : list rvjit_reginfo_t;
  virt_pc : Z;
  phys_pc : Z;
  pc_off : Z;
  rv64 : bool;
  linkage : Z
}.

Definition set_heap (x : rvjit_heap_t) (b : rvjit_block_t) : rvjit_block_t :=
  mk_block x (links b) (code b) (size b) (space b) (hreg_mask b)
    (abireclaim_mask b) (regs b) (virt_pc b) (phys_pc b) (pc_off b) (rv64 b)
    (linkage b).

Definition set_code (x : list Byte.byte) (b : rvjit_block_t) : rvjit_block_t :=
  mk_block (heap b) (links b) x (size b) (space b) (hreg_mask b)
    (abireclaim_mask b) (regs b) (virt_pc b) (phys_pc b) (pc_off b) (rv64 b)
    (linkage b).

Definition set_size (x : Z) (b : rvjit_block_t) : rvjit_block_t :=
  mk_block (heap b) (links b) (code b) x (space b) (hreg_mask b)
    (abireclaim_mask b) (regs b) (virt_pc b) (phys_pc b) (pc_off b) (rv64 b)
    (linkage b).

Definition set_space (x : Z) (b : rvjit_block_t) : rvjit_block_t :=
  mk_block (heap b) (links b) (code b) (size b) x (hreg_mask b)
    (abireclaim_mask b) (regs b) (virt_pc b) (phys_pc b) (pc_off b) (rv64 b)
    (linkage b).

Definition set_hreg_mask (x : Z) (b : rvjit_block_t) : rvjit_block_t :=
  mk_block (heap b) (links b) (code b) (size b) (space b) x
    (abireclaim_mask b) (regs b) (virt_pc b) (phys_pc b) (pc_off b) (rv64 b)
    (linkage b).

Definition set_links (x : list (Z * Z)) (b : rvjit_block_t) : rvjit_block_t :=
  mk_block (heap b) x (code b) (size b) (space b) (hreg_mask b)
    (abireclaim_mask b) (regs b) (virt_pc b) (phys_pc b) (pc_off b) (rv64 b)
    (linkage b).

Definition set_rv64_field (x : bool) (b : rvjit_block_t) : rvjit_block_t :=
  mk_block (heap b) (links b) (code b) (size b) (space b) (hreg_mask b)
    (abireclaim_mask b) (regs b) (virt_pc b) (phys_pc b) (pc_off b) x
    (linkage b).

(** ** Operations of rvjit.h *)

Section Rvjit.

Variable h : host_arch.

(** Truncation to [size_t]. *)
Definition size_t_wrap (x : Z) : Z := x mod 2 ^ size_t_bits h.

(** A value that a [size_t] variable can hold. *)
Definition size_t_range (x : Z) : Prop := 0 <= x < 2 ^ size_t_bits h.

(** [regid_t] is [uint8_t]. *)
Definition regid_wrap (x : Z) : Z := x mod 2 ^ 8.

(** [rvjit_set_rv64] *)
Definition rvjit_set_rv64 (block : rvjit_block_t) (rv64' : bool) : rvjit_block_t :=
  if RVJIT_NATIVE_64BIT h
  then set_rv64_field rv64' block
  else set_rv64_field false block.

(** [rvjit_block_nonempty] *)
Definition rvjit_block_nonempty (block : rvjit_block_t) : bool :=
  negb (size block =? 0).

(** Content of freshly allocated memory, by offset: C leaves it
    indeterminate. *)
Variable uninit : nat -> Byte.byte.

(** [safe_realloc] (utils.h): a buffer of the requested size that keeps
    the old bytes up to the smaller of the two sizes; it aborts instead
    of returning NULL. *)
Definition safe_realloc (ptr : list Byte.byte) (size' : Z) : list Byte.byte :=
  let n := Z.to_nat size' in
  take n ptr ++ map uninit (seq (length ptr) (n - length ptr)).

(** [memcpy (dst + off, src, n)] on a destination buffer [dst]: undefined
    ([None]) when it reads or writes past the end of a buffer. *)
Definition memcpy (dst : list Byte.byte) (off : nat) (src : list Byte.byte)
    (n : nat) : option (list Byte.byte) :=
  if decide ((off + n <= length dst)%nat /\ (n <= length src)%nat) then
    Some (take off dst ++ take n src ++ drop (off + n) dst)
  else None.

(** The capacity-growth branch of [rvjit_put_code]. *)
Definition put_code_grow (block : rvjit_block_t) (size' : Z) : rvjit_block_t :=
  if space block <? size_t_wrap (size block + size') then
    let space' := size_t_wrap (space block + 1024) in
    set_code (safe_realloc (code block) space') (set_space space' block)
  else block.

(** [rvjit_put_code]: [None] when the [memcpy] is out of bounds. *)
Definition rvjit_put_code (block : rvjit_block_t) (inst : list Byte.byte)
    (size' : Z) : option rvjit_block_t :=
  let block1 := put_code_grow block size' in
  match memcpy (code block1) (Z.to_nat (size block1)) inst (Z.to_nat size') with
  | Some code' =>
      Some (set_size (size_t_wrap (size block1 + size')) (set_code code' block1))
  | None => None
  end.

(** [rvjit_hreg_mask]: [1ULL << hreg], converted to [size_t].  The shift
    is defined by C for [hreg < 64]. *)
Definition rvjit_hreg_mask (hreg' : Z) : Z :=
  size_t_wrap (Z.shiftl 1 hreg' mod 2 ^ 64).

(** [rvjit_free_hreg] *)
Definition rvjit_free_hreg (block : rvjit_block_t) (hreg' : Z) : rvjit_block_t :=
  set_hreg_mask (Z.lor (hreg_mask block) (rvjit_hreg_mask hreg')) block.

(** The [for] loop of [rvjit_try_claim_hreg], from index [i]; [fuel]
    bounds the number of iterations. *)
Fixpoint try_claim_loop (fuel : nat) (i : Z) (block : rvjit_block_t)
  : Z * rvjit_block_t :=
  match fuel with
  | O => (REG_ILL, block)
  | S fuel' =>
      if i <? RVJIT_REGISTERS then
        if negb (Z.land (hreg_mask block) (rvjit_hreg_mask i) =? 0) then
          (i, set_hreg_mask
                (Z.land (hreg_mask block)
                        (size_t_wrap (Z.lnot (rvjit_hreg_mask i))))
                block)
        else try_claim_loop fuel' (regid_wrap (i + 1)) block
      else (REG_ILL, block)
  end.

(** [rvjit_try_claim_hreg] *)
Definition rvjit_try_claim_hreg (block : rvjit_block_t) : Z * rvjit_block_t :=
  try_claim_loop (Z.to_nat RVJIT_REGISTERS) 0 block.

(** [rvjit_reclaim_hreg] is declared in rvjit.h and defined elsewhere; it
    is taken as given. *)
Variable rvjit_reclaim_hreg : rvjit_block_t -> Z * rvjit_block_t.

(** [rvjit_claim_hreg] *)
Definition rvjit_claim_hreg (block : rvjit_block_t) : Z * rvjit_block_t :=
  let '(hreg', block') := rvjit_try_claim_hreg block in
  if hreg' =? REG_ILL then rvjit_reclaim_hreg block' else (hreg', block').

End Rvjit.

(** ** The code heap, the block cache and the dirty-page tracker

    rvjit.h declares [rvjit_block_finalize], [rvjit_block_lookup],
    [rvjit_flush_cache] and [rvjit_mark_dirty_mem]; their bodies are in the
    JIT's implementation file.  They are modelled here from the
    specification of the code heap (sections 4.6 to 4.8) and from the
    comments on their declarations. *)

Definition PAGE_SHIFT : Z := 12.
Definition PAGE_SIZE : Z := 4096.

Definition set_phys_pc (x : Z) (b : rvjit_block_t) : rvjit_block_t :=
  mk_block (heap b) (links b) (code b) (size b) (space b) (hreg_mask b)
    (abireclaim_mask b) (regs b) (virt_pc b) x (pc_off b) (rv64 b)
    (linkage b).

Definition set_heap_dirty_pages (x : gmap Z Z) (hp : rvjit_heap_t) : rvjit_heap_t :=
  mk_heap (heap_code hp) (heap_curr hp) (heap_size hp) (heap_blocks hp)
    (heap_block_links hp) x (heap_dirty_mask hp).

(** Modelled from the spec: the dirty-page tracker is "a bit array indexed
    by physaddr >> 12"; [dirty_pages] is declared as an array of 32-bit
    words, so page [p] is bit [p & 31] of word [p >> 5].  This reads word
    [w] of the array. *)
Definition dirty_word (hp : rvjit_heap_t) (w : Z) : Z :=
  default 0 (heap_dirty_pages hp !! w).

(** Modelled from the spec: the dirty bit of page [page] ("a bit array
    indexed by physaddr >> 12"). *)
Definition page_dirty (hp : rvjit_heap_t) (page : Z) : bool :=
  Z.testbit (dirty_word hp (Z.shiftr page 5)) (Z.land page 31).

(** Modelled from the spec: setting the dirty bit of one page. *)
Definition rvjit_mark_dirty_page (hp : rvjit_heap_t) (page : Z) : rvjit_heap_t :=
  let w := Z.shiftr page 5 in
  set_heap_dirty_pages
    (<[w := Z.lor (dirty_word hp w) (Z.shiftl 1 (Z.land page 31))]>
       (heap_dirty_pages hp))
    hp.

(** Modelled from the spec: marking [n] consecutive pages from [page] on. *)
Fixpoint mark_dirty_pages (n : nat) (page : Z) (hp : rvjit_heap_t) : rvjit_heap_t :=
  match n with
  | O => hp
  | S n' => mark_dirty_pages n' (page + 1) (rvjit_mark_dirty_page hp page)
  end.

(** Modelled from the spec: [rvjit_mark_dirty_mem], declared in rvjit.h
    without a body.  "Any RAM write, DMA completion, or guest-issued fence.i sets
    bits covering the written range": the pages from that of [addr] to that
    of the last byte [addr + size - 1] are marked; an empty range marks
    nothing. *)
Definition rvjit_mark_dirty_mem (block : rvjit_block_t) (addr size' : Z)
  : rvjit_block_t :=
  if size' <=? 0 then block
  else
    let first := Z.shiftr addr PAGE_SHIFT in
    let last := Z.shiftr (addr + size' - 1) PAGE_SHIFT in
    set_heap (mark_dirty_pages (Z.to_nat (last - first + 1)) first (heap block))
      block.

(** Page [page] shares a byte with the range [addr, addr + size'). *)
Definition page_overlaps (page addr size' : Z) : bool :=
  (0 <? size') && (addr <? (page + 1) * PAGE_SIZE)
  && (page * PAGE_SIZE <? addr + size').

(** Modelled from the spec: [rvjit_block_lookup], declared in rvjit.h
    without a body.  "Looks up for compiled block by phys_pc, returns NULL when no
    block was found", in the "mapping from guest physical PC to entry
    pointer of a compiled trace" kept in the heap. *)
Definition rvjit_block_lookup (block : rvjit_block_t) (phys_pc' : Z)
  : rvjit_func_t :=
  heap_blocks (heap block) !! phys_pc'.

(** Modelled from the spec: [rvjit_flush_cache], declared in rvjit.h
    without a body.  "Current offset reset to zero, block cache cleared,
    pending-link map cleared", and the dirty bits "are cleared by the
    flush". *)
Definition rvjit_flush_cache (block : rvjit_block_t) : rvjit_block_t :=
  let hp := heap block in
  set_heap (mk_heap (heap_code hp) 0 (heap_size hp) ∅ ∅ ∅ (heap_dirty_mask hp))
    block.

Section CodeHeap.

Variable h : host_arch.

(** The backend's [patch_jump]: rewrites the jump at offset [site] of the
    arena so that it goes to offset [target]. *)
Variable patch_jump : list Byte.byte -> Z -> Z -> list Byte.byte.

(** Modelled from the spec: rounding an offset up to the next multiple of
    [a], for the "page-aligned" entry. *)
Definition align_up (x a : Z) : Z := (x + a - 1) / a * a.

(** Modelled from the spec: the entry of the next block, "a page-aligned
    (for the entry) address" at or after the current offset of the bump
    allocator. *)
Definition heap_next_entry (hp : rvjit_heap_t) : Z :=
  align_up (heap_curr hp) PAGE_SIZE.

(** Modelled from the spec: the block "is copied from the working buffer
    into the code heap"; this stores [bytes] at offset [off] of the arena. *)
Definition heap_write (arena : list Byte.byte) (off : Z) (bytes : list Byte.byte)
  : list Byte.byte :=
  take (Z.to_nat off) arena ++ bytes
  ++ drop (Z.to_nat off + length bytes) arena.

(** Modelled from the spec: one outgoing link site [(dest, ptr)] of a block
    installed at [entry]: "if the target guest PC already has a compiled
    block, patch the direct jump immediately; otherwise store the site in a
    pending-link multimap keyed by target PC". *)
Definition link_site (blocks : gmap Z Z) (entry : Z)
    (st : list Byte.byte * gmap Z (list Z)) (lnk : Z * Z)
  : list Byte.byte * gmap Z (list Z) :=
  let '(arena, pending) := st in
  let '(dest, ptr) := lnk in
  match blocks !! dest with
  | Some target => (patch_jump arena (entry + ptr) target, pending)
  | None => (arena, <[dest := (entry + ptr) :: default [] (pending !! dest)]> pending)
  end.

(** Modelled from the spec: "when a new block is later installed, the
    multimap is consulted and all waiting sites are patched". *)
Definition patch_waiting (arena : list Byte.byte) (pending : gmap Z (list Z))
    (pc entry : Z) : list Byte.byte * gmap Z (list Z) :=
  (foldl (fun a site => patch_jump a site entry) arena (default [] (pending !! pc)),
   delete pc pending).

(** Modelled from the spec: [rvjit_block_finalize], declared in rvjit.h
    without a body.  "Returns NULL when cache is full, otherwise returns a valid
    function pointer.  Inserts block into the lookup cache by phys_pc key";
    the block "is copied from the working buffer into the code heap at a
    page-aligned (for the entry) address, registered in the block cache, and
    its outstanding link sites are scanned"; "direct linking is disabled on
    hosts that lack a native linker". *)
Definition rvjit_block_finalize (block : rvjit_block_t)
  : rvjit_func_t * rvjit_block_t :=
  let hp := heap block in
  let entry := heap_next_entry hp in
  if heap_size hp <? entry + size block then (None, block)
  else
    let body := take (Z.to_nat (size block)) (code block) in
    let arena := heap_write (heap_code hp) entry body in
    let blocks := <[phys_pc block := entry]> (heap_blocks hp) in
    let '(arena', pending') :=
      if RVJIT_NATIVE_LINKER h then
        let '(a1, p1) :=
          foldl (link_site blocks entry) (arena, heap_block_links hp) (links block) in
        patch_waiting a1 p1 (phys_pc block) entry
      else (arena, heap_block_links hp) in
    (Some entry,
     set_heap (mk_heap arena' (entry + size block) (heap_size hp) blocks pending'
                 (heap_dirty_pages hp) (heap_dirty_mask hp))
       block).

(** *** Histories of the code heap *)

(** What the hart loop and the frontend do to the heap: install a block
    emitted at [pc] with the given code and link sites, flush, or report a
    write to guest memory. *)
Inductive jit_event : Type :=
  | EvFinalize (pc : Z) (body : list Byte.byte) (lnk : list (Z * Z))
  | EvFlush
  | EvMarkDirty (addr len : Z).

(** The block in progress as the frontend leaves it before finalizing. *)
Definition emitted (pc : Z) (body : list Byte.byte) (lnk : list (Z * Z))
    (b : rvjit_block_t) : rvjit_block_t :=
  set_links lnk
    (set_size (Z.of_nat (length body))
       (set_space (Z.of_nat (length body))
          (set_code body (set_phys_pc pc b)))).

(** Runs a history; next to the state it keeps the log of what
    [rvjit_block_finalize] returned for each [phys_pc] since the last
    flush. *)
Fixpoint run_events (evs : list jit_event) (b : rvjit_block_t)
    (log : gmap Z Z) : rvjit_block_t * gmap Z Z :=
  match evs with
  | [] => (b, log)
  | EvFinalize pc body lnk :: evs' =>
      let '(f, b') := rvjit_block_finalize (emitted pc body lnk b) in
      run_events evs' b'
        (match f with Some entry => <[pc := entry]> log | None => log end)
  | EvFlush :: evs' => run_events evs' (rvjit_flush_cache b) ∅
  | EvMarkDirty addr len :: evs' =>
      run_events evs' (rvjit_mark_dirty_mem b addr len) log
  end.

End CodeHeap.

(** Whether a history holds, after its last flush, a finalize of a block
    at [p]; [seen] is the answer for the history so far. *)
Fixpoint finalized_since_flush (evs : list jit_event) (p : Z) (seen : bool) : bool :=
  match evs with
  | [] => seen
  | EvFinalize pc _ _ :: evs' => finalized_since_flush evs' p (seen || (pc =? p))
  | EvFlush :: evs' => finalized_since_flush evs' p false
  | EvMarkDirty _ _ :: evs' => finalized_since_flush evs' p seen
  end.

(** ** Invariants of the block in progress *)

(** The working buffer has [space] bytes, [size] of them used, and both
    fields hold [size_t] values. *)
Definition buffer_ok (h : host_arch) (b : rvjit_block_t) : Prop :=
  Z.of_nat (length (code b)) = space b /\
  0 <= size b <= space b /\
  space b < 2 ^ size_t_bits h.

(** The bump allocator's offset is not negative. *)
Definition heap_ok (b : rvjit_block_t) : Prop :=
  0 <= heap_curr (heap b).

(** The mask written back by a successful claim of register [r]. *)
Definition claimed_mask (h : host_arch) (m r : Z) : Z :=
  Z.land m (size_t_wrap h (Z.lnot (rvjit_hreg_mask h r))).

(** ** Sample states *)

Definition sample_heap : rvjit_heap_t :=
  mk_heap (replicate (Z.to_nat 8192) Byte.x00) 0 8192 ∅ ∅ ∅ 0.

(** A block with host registers 2 and 3 free and an empty working buffer. *)
Definition sample_block : rvjit_block_t :=
  mk_block sample_heap [] [] 0 0 12 0
    (replicate 32 (mk_reginfo 0 0 REG_ILL 0)) 0 0x80000000 0 false LINKAGE_NONE.

(** The same block with no free host register. *)
Definition sample_block_full : rvjit_block_t := set_hreg_mask 0 sample_block.

(** A stand-in for [rvjit_reclaim_hreg] that hands out host register 7. *)
Definition sample_reclaim (b : rvjit_block_t) : Z * rvjit_block_t := (7, b).

(** A stand-in for the backend's [patch_jump] that leaves the arena alone. *)
Definition sample_patch (arena : list Byte.byte) (site target : Z)
  : list Byte.byte := arena.

(** A backend emitting one instruction after the other: [rvjit_put_code] on
    each chunk in turn, with its length as [size]; [None] as soon as one
    [memcpy] is out of bounds. *)
Fixpoint rvjit_put_codes (h : host_arch) (uninit : nat -> Byte.byte)
    (b : rvjit_block_t) (chunks : list (list Byte.byte)) : option rvjit_block_t :=
  match chunks with
  | [] => Some b
  | c :: chunks' =>
      match rvjit_put_code h uninit b c (Z.of_nat (length c)) with
      | Some b' => rvjit_put_codes h uninit b' chunks'
      | None => None
      end
  end.

(** The bytes of the working buffer that are in use. *)
Definition used_code (b : rvjit_block_t) : list Byte.byte :=
  take (Z.to_nat (size b)) (code b).

(** * Proofs *)

(** ** Arithmetic of [size_t] and of single-bit masks *)

Lemma size_t_bits_bounds (h : host_arch) : 32 <= size_t_bits h <= 64.
Proof. unfold size_t_bits. destruct (RVJIT_NATIVE_64BIT h); lia. Qed.

Lemma size_t_wrap_small (h : host_arch) (x : Z) :
  size_t_range h x -> size_t_wrap h x = x.
Proof. unfold size_t_range, size_t_wrap. intros Hx. apply Z.mod_small, Hx. Qed.

Lemma pow2_le_size_t (h : host_arch) (i : Z) :
  0 <= i < 32 -> 0 < 2 ^ i < 2 ^ size_t_bits h.
Proof.
  intros Hi. pose proof (size_t_bits_bounds h) as Hw. split.
  - apply Z.pow_pos_nonneg; lia.
  - apply Z.pow_lt_mono_r; lia.
Qed.

Lemma rvjit_hreg_mask_pow2 (h : host_arch) (i : Z) :
  0 <= i < 32 -> rvjit_hreg_mask h i = 2 ^ i.
Proof.
  intros Hi. unfold rvjit_hreg_mask, size_t_wrap.
  rewrite Z.shiftl_1_l.
  pose proof (pow2_le_size_t h i Hi) as Hp.
  assert (2 ^ i < 2 ^ 64) by (apply Z.pow_lt_mono_r; lia).
  rewrite (Z.mod_small (2 ^ i) (2 ^ 64)) by lia.
  apply Z.mod_small. lia.
Qed.

Lemma land_pow2 (m i : Z) :
  0 <= i -> Z.land m (2 ^ i) = if Z.testbit m i then 2 ^ i else 0.
Proof.
  intros Hi. apply Z.bits_inj'. intros j Hj.
  rewrite Z.land_spec, Z.pow2_bits_eqb by lia.
  destruct (Z.eqb_spec i j) as [->|Hne].
  - destruct (Z.testbit m j) eqn:E; simpl.
    + now rewrite Z.pow2_bits_true by lia.
    + now rewrite Z.bits_0.
  - rewrite andb_false_r.
    destruct (Z.testbit m i).
    + rewrite Z.pow2_bits_false by lia. reflexivity.
    + now rewrite Z.bits_0.
Qed.

Lemma land_pow2_eqb (m i : Z) :
  0 <= i -> (Z.land m (2 ^ i) =? 0) = negb (Z.testbit m i).
Proof.
  intros Hi. rewrite land_pow2 by lia.
  assert (0 < 2 ^ i) by (apply Z.pow_pos_nonneg; lia).
  destruct (Z.testbit m i); simpl; [apply Z.eqb_neq; lia | reflexivity].
Qed.

Lemma testbit_size_t_high (h : host_arch) (m j : Z) :
  size_t_range h m -> size_t_bits h <= j -> Z.testbit m j = false.
Proof.
  intros Hm Hj. pose proof (size_t_bits_bounds h).
  rewrite <- (Z.mod_small m (2 ^ size_t_bits h)) by apply Hm.
  apply Z.mod_pow2_bits_high. lia.
Qed.

(** Bits of the mask after [hreg_mask &= ~rvjit_hreg_mask(i)]. *)
Lemma testbit_clear_mask (h : host_arch) (m i j : Z) :
  size_t_range h m -> 0 <= i < 32 ->
  Z.testbit (Z.land m (size_t_wrap h (Z.lnot (2 ^ i)))) j
  = Z.testbit m j && negb (i =? j).
Proof.
  intros Hm Hi. pose proof (size_t_bits_bounds h) as Hw.
  destruct (Z.neg_nonneg_cases j) as [Hj|Hj].
  { rewrite !Z.testbit_neg_r by lia. reflexivity. }
  rewrite Z.land_spec. unfold size_t_wrap.
  destruct (Z.lt_ge_cases j (size_t_bits h)) as [Hlt|Hge].
  - rewrite Z.mod_pow2_bits_low by lia.
    rewrite Z.lnot_spec, Z.pow2_bits_eqb by lia. reflexivity.
  - rewrite (testbit_size_t_high h m j Hm Hge). reflexivity.
Qed.


(** ** The register allocator: [rvjit_try_claim_hreg] and friends *)

(** What the loop does when started at index [i] with [32 - i] iterations
    left: it stops at the first set bit at or above [i], or runs off the
    end and answers [REG_ILL]. *)
Lemma try_claim_loop_spec (h : host_arch) (fuel : nat) :
  forall (i : Z) (b : rvjit_block_t),
    0 <= i -> i + Z.of_nat fuel = RVJIT_REGISTERS ->
    (exists r, i <= r < RVJIT_REGISTERS /\
               Z.testbit (hreg_mask b) r = true /\
               (forall j, i <= j < r -> Z.testbit (hreg_mask b) j = false) /\
               try_claim_loop h fuel i b
               = (r, set_hreg_mask (claimed_mask h (hreg_mask b) r) b))
    \/ ((forall j, i <= j < RVJIT_REGISTERS -> Z.testbit (hreg_mask b) j = false) /\
        try_claim_loop h fuel i b = (REG_ILL, b)).
Proof.
  unfold RVJIT_REGISTERS.
  induction fuel as [|fuel IH]; intros i b Hi Hsum.
  - right. split; [intros j Hj; lia | reflexivity].
  - cbn [try_claim_loop]. unfold RVJIT_REGISTERS.
    assert (Hlt : i < 32) by lia.
    apply Z.ltb_lt in Hlt as Hltb. rewrite Hltb.
    rewrite rvjit_hreg_mask_pow2 by lia.
    rewrite land_pow2_eqb, negb_involutive by lia.
    destruct (Z.testbit (hreg_mask b) i) eqn:Hbit.
    + left. exists i. split; [lia|]. split; [assumption|]. split.
      * intros j Hj. lia.
      * unfold claimed_mask. now rewrite rvjit_hreg_mask_pow2 by lia.
    + assert (Hwrap : regid_wrap (i + 1) = i + 1).
      { unfold regid_wrap. apply Z.mod_small. change (2 ^ 8) with 256. lia. }
      rewrite Hwrap.
      destruct (IH (i + 1) b ltac:(lia) ltac:(lia))
        as [(r & Hr & Hset & Hlow & Heq) | (Hnone & Heq)].
      * left. exists r. split; [lia|]. split; [assumption|]. split; [|assumption].
        intros j Hj. destruct (Z.eq_dec j i) as [->|Hne]; [assumption|].
        apply Hlow. lia.
      * right. split; [|assumption].
        intros j Hj. destruct (Z.eq_dec j i) as [->|Hne]; [assumption|].
        apply Hnone. lia.
Qed.

Lemma rvjit_try_claim_hreg_spec (h : host_arch) (b : rvjit_block_t) :
  (exists r, 0 <= r < RVJIT_REGISTERS /\
             Z.testbit (hreg_mask b) r = true /\
             (forall j, 0 <= j < r -> Z.testbit (hreg_mask b) j = false) /\
             rvjit_try_claim_hreg h b
             = (r, set_hreg_mask (claimed_mask h (hreg_mask b) r) b))
  \/ ((forall j, 0 <= j < RVJIT_REGISTERS -> Z.testbit (hreg_mask b) j = false) /\
      rvjit_try_claim_hreg h b = (REG_ILL, b)).
Proof.
  unfold rvjit_try_claim_hreg.
  apply try_claim_loop_spec; [lia | reflexivity].
Qed.

Lemma testbit_claimed_mask (h : host_arch) (m r j : Z) :
  size_t_range h m -> 0 <= r < RVJIT_REGISTERS ->
  Z.testbit (claimed_mask h m r) j = Z.testbit m j && negb (r =? j).
Proof.
  unfold RVJIT_REGISTERS, claimed_mask. intros Hm Hr.
  rewrite rvjit_hreg_mask_pow2 by lia.
  now apply testbit_clear_mask.
Qed.

(** Setting the bit again gives back the mask the claim started from. *)
Lemma lor_claimed_mask (h : host_arch) (m r : Z) :
  size_t_range h m -> 0 <= r < RVJIT_REGISTERS ->
  Z.testbit m r = true ->
  Z.lor (claimed_mask h m r) (rvjit_hreg_mask h r) = m.
Proof.
  intros Hm Hr Hbit. apply Z.bits_inj'. intros j Hj.
  rewrite Z.lor_spec, testbit_claimed_mask by assumption.
  unfold RVJIT_REGISTERS in Hr.
  rewrite rvjit_hreg_mask_pow2, Z.pow2_bits_eqb by lia.
  destruct (Z.eqb_spec r j) as [->|Hne]; simpl.
  - now rewrite Hbit.
  - rewrite andb_true_r. apply orb_false_r.
Qed.

Lemma set_hreg_mask_id (b : rvjit_block_t) : set_hreg_mask (hreg_mask b) b = b.
Proof. now destruct b. Qed.

Lemma set_hreg_mask_twice (x y : Z) (b : rvjit_block_t) :
  set_hreg_mask x (set_hreg_mask y b) = set_hreg_mask x b.
Proof. reflexivity. Qed.

Example try_claim_sample :
  rvjit_try_claim_hreg HOST_I386 sample_block = (2, set_hreg_mask 8 sample_block).
Proof. reflexivity. Qed.

Example try_claim_sample_full :
  rvjit_try_claim_hreg HOST_X86_64 sample_block_full = (REG_ILL, sample_block_full).
Proof. reflexivity. Qed.

Example try_claim_high_bit_only :
  fst (rvjit_try_claim_hreg HOST_X86_64 (set_hreg_mask (2 ^ 40) sample_block)) = REG_ILL.
Proof. reflexivity. Qed.

Example free_after_claim_sample :
  rvjit_free_hreg HOST_I386 (set_hreg_mask 8 sample_block) 2 = sample_block.
Proof. reflexivity. Qed.

(** ** Theorems on the register allocator *)

(** C1: when some bit among positions 0..31 of [hreg_mask] is set,
    [rvjit_claim_hreg] returns the index of a set bit (the lowest one) and
    clears exactly that bit of [hreg_mask], leaving the rest of the block as
    it was; when none of these bits is set, it returns what
    [rvjit_reclaim_hreg] returns on the block. *)
Theorem rvjit_claim_hreg_correct (h : host_arch)
    (reclaim : rvjit_block_t -> Z * rvjit_block_t) (b : rvjit_block_t) :
  size_t_range h (hreg_mask b) ->
  ((exists i, 0 <= i < 32 /\ Z.testbit (hreg_mask b) i = true) ->
   exists r m',
     rvjit_claim_hreg h reclaim b = (r, set_hreg_mask m' b) /\
     0 <= r < 32 /\
     Z.testbit (hreg_mask b) r = true /\
     Z.testbit m' r = false /\
     (forall j, j <> r -> Z.testbit m' j = Z.testbit (hreg_mask b) j)) /\
  ((forall i, 0 <= i < 32 -> Z.testbit (hreg_mask b) i = false) ->
   rvjit_claim_hreg h reclaim b = reclaim b).
Proof.
  intros Hm. unfold rvjit_claim_hreg.
  destruct (rvjit_try_claim_hreg_spec h b)
    as [(r & Hr & Hset & _ & Heq) | (Hnone & Heq)]; rewrite Heq.
  - unfold RVJIT_REGISTERS in Hr.
    assert (Hne : (r =? REG_ILL) = false)
      by (apply Z.eqb_neq; unfold REG_ILL; lia).
    rewrite Hne. split.
    + intros _. exists r, (claimed_mask h (hreg_mask b) r).
      split; [reflexivity|]. split; [lia|]. split; [assumption|]. split.
      * rewrite testbit_claimed_mask by (unfold RVJIT_REGISTERS; auto).
        rewrite Z.eqb_refl. apply andb_false_r.
      * intros j Hj. rewrite testbit_claimed_mask by (unfold RVJIT_REGISTERS; auto).
        replace (r =? j) with false by (symmetry; apply Z.eqb_neq; lia).
        apply andb_true_r.
    + intros Hnone. rewrite (Hnone r Hr) in Hset. discriminate.
  - rewrite Z.eqb_refl. split.
    + intros (i & Hi & Hbit). rewrite (Hnone i Hi) in Hbit. discriminate.
    + intros _. reflexivity.
Qed.

Lemma rvjit_claim_hreg_correct_witness :
  size_t_range HOST_X86_64 (hreg_mask sample_block) /\
  (exists r m',
     rvjit_claim_hreg HOST_X86_64 sample_reclaim sample_block
     = (r, set_hreg_mask m' sample_block) /\
     0 <= r < 32 /\
     Z.testbit (hreg_mask sample_block) r = true /\
     Z.testbit m' r = false /\
     (forall j, j <> r -> Z.testbit m' j = Z.testbit (hreg_mask sample_block) j)) /\
  rvjit_claim_hreg HOST_X86_64 sample_reclaim sample_block_full
  = sample_reclaim sample_block_full.
Proof.
  assert (H1 : size_t_range HOST_X86_64 (hreg_mask sample_block))
    by (unfold size_t_range; vm_compute; split; [discriminate | reflexivity]).
  assert (H0 : size_t_range HOST_X86_64 (hreg_mask sample_block_full))
    by (unfold size_t_range; vm_compute; split; [discriminate | reflexivity]).
  split; [exact H1|]. split.
  - apply (rvjit_claim_hreg_correct HOST_X86_64 sample_reclaim sample_block H1).
    exists 2. split; [lia | reflexivity].
  - apply (rvjit_claim_hreg_correct HOST_X86_64 sample_reclaim sample_block_full H0).
    intros i Hi. apply Z.bits_0.
Defined.

(** C8: when [rvjit_try_claim_hreg] returns a register [r] other than
    [REG_ILL], bit [r] of [hreg_mask] was set before the call and is clear
    after it, every other bit of [hreg_mask] is unchanged, and a following
    [rvjit_free_hreg (block, r)] puts [hreg_mask] (and so the block) back to
    what it was before the claim. *)
Theorem rvjit_try_claim_then_free (h : host_arch) (b b' : rvjit_block_t) (r : Z) :
  size_t_range h (hreg_mask b) ->
  rvjit_try_claim_hreg h b = (r, b') ->
  r <> REG_ILL ->
  Z.testbit (hreg_mask b) r = true /\
  Z.testbit (hreg_mask b') r = false /\
  (forall j, j <> r -> Z.testbit (hreg_mask b') j = Z.testbit (hreg_mask b) j) /\
  hreg_mask (rvjit_free_hreg h b' r) = hreg_mask b /\
  rvjit_free_hreg h b' r = b.
Proof.
  intros Hm Hclaim Hill.
  destruct (rvjit_try_claim_hreg_spec h b)
    as [(r0 & Hr & Hset & _ & Heq) | (Hnone & Heq)];
    rewrite Heq in Hclaim; inversion Hclaim; subst; [|congruence].
  clear Hclaim Hill. cbn [hreg_mask set_hreg_mask].
  split; [assumption|]. split.
  { rewrite testbit_claimed_mask by assumption.
    rewrite Z.eqb_refl. apply andb_false_r. }
  split.
  { intros j Hj. rewrite testbit_claimed_mask by assumption.
    replace (r =? j) with false by (symmetry; apply Z.eqb_neq; lia).
    apply andb_true_r. }
  unfold rvjit_free_hreg. cbn [hreg_mask set_hreg_mask].
  rewrite lor_claimed_mask by assumption.
  split; [reflexivity|]. now destruct b.
Qed.

Lemma rvjit_try_claim_then_free_witness :
  size_t_range HOST_I386 (hreg_mask sample_block) /\
  rvjit_try_claim_hreg HOST_I386 sample_block = (2, set_hreg_mask 8 sample_block) /\
  2 <> REG_ILL /\
  rvjit_free_hreg HOST_I386 (set_hreg_mask 8 sample_block) 2 = sample_block.
Proof.
  assert (H1 : size_t_range HOST_I386 (hreg_mask sample_block))
    by (unfold size_t_range; vm_compute; split; [discriminate | reflexivity]).
  assert (H2 : (2 : Z) <> REG_ILL) by (unfold REG_ILL; lia).
  split; [exact H1|]. split; [reflexivity|]. split; [exact H2|].
  apply (rvjit_try_claim_then_free HOST_I386 sample_block
           (set_hreg_mask 8 sample_block) 2 H1 eq_refl H2).
Defined.

(** C10: the value returned by [rvjit_try_claim_hreg] is [REG_ILL] (0xFF)
    or an index below [RVJIT_REGISTERS] (32), hence an index into the
    32-entry [regs] array. *)
Theorem rvjit_try_claim_hreg_in_range (h : host_arch) (b : rvjit_block_t) :
  fst (rvjit_try_claim_hreg h b) = REG_ILL \/
  0 <= fst (rvjit_try_claim_hreg h b) < RVJIT_REGISTERS.
Proof.
  destruct (rvjit_try_claim_hreg_spec h b)
    as [(r & Hr & _ & _ & Heq) | (_ & Heq)]; rewrite Heq; cbn [fst].
  - right. exact Hr.
  - left. reflexivity.
Qed.

(** ** Guest bitness: [rvjit_set_rv64] *)

Example set_rv64_on_x86_64 :
  rv64 (rvjit_set_rv64 HOST_X86_64 sample_block true) = true.
Proof. reflexivity. Qed.

Example set_rv64_on_arm :
  rv64 (rvjit_set_rv64 HOST_ARM sample_block true) = false.
Proof. reflexivity. Qed.

(** C7, as stated, fails on a host without [RVJIT_NATIVE_64BIT]: on i386 a
    request for an RV64 guest leaves the [rv64] flag false. *)
Lemma rvjit_set_rv64_i386_counterexample :
  rv64 (rvjit_set_rv64 HOST_I386 sample_block true) <> true.
Proof. discriminate. Qed.

(** C7, amended: after [rvjit_set_rv64 (block, b)] the [rv64] flag equals
    [b] on the hosts that define [RVJIT_NATIVE_64BIT] (x86_64, 64-bit
    RISC-V, ARM64) and is false on the others (i386, 32-bit RISC-V, ARM),
    whatever [b] is; no other field of the block changes. *)
Theorem rvjit_set_rv64_flag (h : host_arch) (b : rvjit_block_t) (v : bool) :
  rv64 (rvjit_set_rv64 h b v) = (if RVJIT_NATIVE_64BIT h then v else false) /\
  rvjit_set_rv64 h b v = set_rv64_field (rv64 (rvjit_set_rv64 h b v)) b.
Proof.
  unfold rvjit_set_rv64. destruct (RVJIT_NATIVE_64BIT h); split; reflexivity.
Qed.

(** ** The working buffer: [rvjit_put_code] *)

Lemma length_safe_realloc (uninit : nat -> Byte.byte) (ptr : list Byte.byte) (n : Z) :
  length (safe_realloc uninit ptr n) = Z.to_nat n.
Proof.
  unfold safe_realloc.
  rewrite length_app, length_take, List.length_map, List.length_seq. lia.
Qed.

(** [safe_realloc] keeps the bytes below the new size. *)
Lemma lookup_safe_realloc (uninit : nat -> Byte.byte) (ptr : list Byte.byte)
    (n : Z) (i : nat) (x : Byte.byte) :
  (i < Z.to_nat n)%nat -> ptr !! i = Some x ->
  safe_realloc uninit ptr n !! i = Some x.
Proof.
  intros Hi Hx. unfold safe_realloc.
  apply lookup_app_l_Some. now rewrite lookup_take_lt.
Qed.

Lemma memcpy_Some (dst src out : list Byte.byte) (off n : nat) :
  memcpy dst off src n = Some out ->
  (off + n <= length dst)%nat /\ (n <= length src)%nat /\
  out = take off dst ++ take n src ++ drop (off + n) dst.
Proof.
  unfold memcpy. destruct (decide _) as [[H1 H2]|]; [|discriminate].
  intros [= <-]. auto.
Qed.

Lemma memcpy_in_bounds (dst src : list Byte.byte) (off n : nat) :
  (off + n <= length dst)%nat -> (n <= length src)%nat ->
  memcpy dst off src n = Some (take off dst ++ take n src ++ drop (off + n) dst).
Proof.
  intros H1 H2. unfold memcpy. destruct (decide _) as [|Hn]; [reflexivity|].
  exfalso. apply Hn. auto.
Qed.

Lemma length_memcpy (dst src out : list Byte.byte) (off n : nat) :
  memcpy dst off src n = Some out -> length out = length dst.
Proof.
  intros H. apply memcpy_Some in H as (H1 & H2 & ->).
  rewrite !length_app, !length_take, length_drop. lia.
Qed.

(** [memcpy] leaves the bytes below the destination offset alone. *)
Lemma lookup_memcpy_below (dst src out : list Byte.byte) (off n i : nat) :
  memcpy dst off src n = Some out -> (i < off)%nat -> out !! i = dst !! i.
Proof.
  intros H Hi. apply memcpy_Some in H as (H1 & H2 & ->).
  rewrite lookup_app_l by (rewrite length_take; lia).
  now apply lookup_take_lt.
Qed.

(** The bytes just written are the chunk. *)
Lemma lookup_memcpy_chunk (dst src out : list Byte.byte) (off n i : nat) :
  memcpy dst off src n = Some out -> (i < n)%nat ->
  out !! (off + i)%nat = src !! i.
Proof.
  intros H Hi. apply memcpy_Some in H as (H1 & H2 & ->).
  rewrite lookup_app_r by (rewrite length_take; lia).
  rewrite length_take.
  replace (off + i - off `min` length dst)%nat with i by lia.
  rewrite lookup_app_l by (rewrite length_take; lia).
  now apply lookup_take_lt.
Qed.

Example put_code_sample :
  rvjit_put_code HOST_X86_64 (fun _ => Byte.xcc) sample_block
    [Byte.x48; Byte.x89; Byte.xc3] 3
  = Some (set_size 3 (set_code ([Byte.x48; Byte.x89; Byte.xc3]
                                 ++ replicate 1021 Byte.xcc)
                        (set_space 1024 sample_block))).
Proof. vm_compute. reflexivity. Qed.

Example put_code_large_chunk :
  rvjit_put_code HOST_X86_64 (fun _ => Byte.xcc) sample_block
    (replicate 2000 Byte.x90) 2000 = None.
Proof. vm_compute. reflexivity. Qed.

(** The state between the growth branch and the [memcpy]: the buffer has
    grown by one step of 1024 bytes or not at all, and nothing else
    changed. *)
Lemma put_code_grow_cases (h : host_arch) (uninit : nat -> Byte.byte)
    (b : rvjit_block_t) (n : Z) :
  put_code_grow h uninit b n = b \/
  put_code_grow h uninit b n
  = set_code (safe_realloc uninit (code b) (size_t_wrap h (space b + 1024)))
      (set_space (size_t_wrap h (space b + 1024)) b).
Proof.
  unfold put_code_grow. destruct (_ <? _); auto.
Qed.

Lemma put_code_grow_fields (h : host_arch) (uninit : nat -> Byte.byte)
    (b : rvjit_block_t) (n : Z) :
  let b1 := put_code_grow h uninit b n in
  heap b1 = heap b /\ links b1 = links b /\ size b1 = size b /\
  hreg_mask b1 = hreg_mask b /\ abireclaim_mask b1 = abireclaim_mask b /\
  regs b1 = regs b /\ virt_pc b1 = virt_pc b /\ phys_pc b1 = phys_pc b /\
  pc_off b1 = pc_off b /\ rv64 b1 = rv64 b /\ linkage b1 = linkage b.
Proof.
  destruct (put_code_grow_cases h uninit b n) as [E|E]; cbn zeta; rewrite E;
    repeat split; reflexivity.
Qed.

(** C2, as stated, fails: the growth branch adds 1024 bytes once, so a
    chunk of 2000 bytes appended to an empty buffer finds [space = 1024]
    before the [memcpy], which then runs past the end of the buffer. *)
Lemma rvjit_put_code_space_counterexample :
  buffer_ok HOST_X86_64 sample_block /\
  ~ (size (put_code_grow HOST_X86_64 (fun _ => Byte.xcc) sample_block 2000) + 2000
     <= space (put_code_grow HOST_X86_64 (fun _ => Byte.xcc) sample_block 2000)) /\
  rvjit_put_code HOST_X86_64 (fun _ => Byte.xcc) sample_block
    (replicate 2000 Byte.x90) 2000 = None.
Proof.
  split; [|split].
  - unfold buffer_ok. vm_compute. repeat split; congruence.
  - vm_compute. intros H. now apply H.
  - vm_compute. reflexivity.
Qed.

(** C2, amended: for a block whose working buffer has [space] bytes with
    [size <= space] of them used, and a chunk of [n] bytes that fits in the
    free space plus one growth step ([size + n <= space + 1024], which holds
    for every chunk of at most 1024 bytes), with [space + 1024]
    representable in [size_t]: after the growth branch [space] is at least
    [size + n], the [memcpy] stays inside the buffer, and the buffer
    invariant holds again afterwards with [size] advanced by [n]. *)
Theorem rvjit_put_code_within_buffer (h : host_arch) (uninit : nat -> Byte.byte)
    (b : rvjit_block_t) (inst : list Byte.byte) (n : Z) :
  buffer_ok h b ->
  0 <= n ->
  (Z.to_nat n <= length inst)%nat ->
  space b + 1024 < 2 ^ size_t_bits h ->
  size b + n <= space b + 1024 ->
  size (put_code_grow h uninit b n) + n <= space (put_code_grow h uninit b n) /\
  exists b',
    rvjit_put_code h uninit b inst n = Some b' /\
    size b' = size b + n /\
    buffer_ok h b'.
Proof.
  intros (Hlen & Hsz & Hsp) Hn Hinst Hrep Hfit.
  assert (Hw1 : size_t_wrap h (size b + n) = size b + n)
    by (apply size_t_wrap_small; unfold size_t_range; lia).
  assert (Hw2 : size_t_wrap h (space b + 1024) = space b + 1024)
    by (apply size_t_wrap_small; unfold size_t_range; lia).
  assert (Hgrow :
    let b1 := put_code_grow h uninit b n in
    size b1 = size b /\ size b + n <= space b1 /\
    Z.of_nat (length (code b1)) = space b1 /\ space b1 < 2 ^ size_t_bits h).
  { unfold put_code_grow. rewrite Hw1, Hw2.
    destruct (Z.ltb_spec (space b) (size b + n)) as [Hlt|Hge]; cbn.
    - rewrite length_safe_realloc. repeat split; lia.
    - repeat split; lia. }
  cbn zeta in Hgrow. destruct Hgrow as (Hs1 & Hfit1 & Hlen1 & Hsp1).
  split; [lia|].
  unfold rvjit_put_code.
  rewrite memcpy_in_bounds by lia.
  eexists. split; [reflexivity|]. cbn. rewrite Hs1, Hw1.
  split; [reflexivity|]. unfold buffer_ok. cbn.
  rewrite !length_app, !length_take, length_drop. repeat split; lia.
Qed.

Lemma rvjit_put_code_within_buffer_witness :
  buffer_ok HOST_I386 sample_block /\
  (Z.to_nat 3 <= length [Byte.x48; Byte.x89; Byte.xc3])%nat /\
  exists b',
    rvjit_put_code HOST_I386 (fun _ => Byte.xcc) sample_block
      [Byte.x48; Byte.x89; Byte.xc3] 3 = Some b' /\
    size b' = size sample_block + 3 /\
    buffer_ok HOST_I386 b'.
Proof.
  assert (H1 : buffer_ok HOST_I386 sample_block)
    by (unfold buffer_ok; vm_compute; repeat split; congruence).
  assert (H2 : (Z.to_nat 3 <= length [Byte.x48; Byte.x89; Byte.xc3])%nat)
    by (vm_compute; lia).
  split; [exact H1|]. split; [exact H2|].
  apply (rvjit_put_code_within_buffer HOST_I386 (fun _ => Byte.xcc) sample_block
           [Byte.x48; Byte.x89; Byte.xc3] 3 H1).
  - lia.
  - exact H2.
  - vm_compute. reflexivity.
  - vm_compute. congruence.
Defined.

(** C9: [rvjit_put_code] changes only [code], [size] and [space]: the
    register records, [hreg_mask], [abireclaim_mask], [virt_pc], [phys_pc],
    [pc_off], [rv64], [linkage], the link list and the heap are unchanged,
    and every byte of the working buffer below the old [size] keeps its
    value. *)
Theorem rvjit_put_code_frame (h : host_arch) (uninit : nat -> Byte.byte)
    (b b' : rvjit_block_t) (inst : list Byte.byte) (n : Z) :
  rvjit_put_code h uninit b inst n = Some b' ->
  regs b' = regs b /\ hreg_mask b' = hreg_mask b /\
  abireclaim_mask b' = abireclaim_mask b /\ virt_pc b' = virt_pc b /\
  phys_pc b' = phys_pc b /\ pc_off b' = pc_off b /\ rv64 b' = rv64 b /\
  linkage b' = linkage b /\ links b' = links b /\ heap b' = heap b /\
  (forall (i : nat) (x : Byte.byte),
     (i < Z.to_nat (size b))%nat -> code b !! i = Some x -> code b' !! i = Some x).
Proof.
  unfold rvjit_put_code. intros H.
  destruct (memcpy _ _ _ _) as [out|] eqn:Hcpy; [|discriminate].
  injection H as <-.
  pose proof (put_code_grow_fields h uninit b n) as Hf. cbn zeta in Hf.
  destruct Hf as (Hheap & Hlinks & Hsize & Hmask & Habi & Hregs & Hv & Hp & Hoff
                  & Hrv & Hlink).
  cbn. repeat (split; [assumption|]).
  intros i x Hi Hx. rewrite Hsize in Hcpy.
  rewrite (lookup_memcpy_below _ _ _ _ _ i Hcpy Hi).
  apply memcpy_Some in Hcpy as (Hbound & _ & _).
  destruct (put_code_grow_cases h uninit b n) as [E|E]; rewrite E in *.
  - assumption.
  - cbn in *. rewrite length_safe_realloc in Hbound.
    apply lookup_safe_realloc; [lia | assumption].
Qed.

Lemma rvjit_put_code_frame_witness :
  rvjit_put_code HOST_X86_64 (fun _ => Byte.xcc)
    (set_size 2 (set_code [Byte.x0f; Byte.x05] (set_space 2 sample_block)))
    [Byte.xc3] 1
  = Some (set_size 3 (set_code ([Byte.x0f; Byte.x05; Byte.xc3]
                                 ++ replicate 1023 Byte.xcc)
                        (set_space 1026 sample_block))) /\
  (forall (i : nat) (x : Byte.byte),
     (i < 2)%nat -> [Byte.x0f; Byte.x05] !! i = Some x ->
     ([Byte.x0f; Byte.x05; Byte.xc3] ++ replicate 1023 Byte.xcc) !! i = Some x).
Proof.
  assert (H : rvjit_put_code HOST_X86_64 (fun _ => Byte.xcc)
                (set_size 2 (set_code [Byte.x0f; Byte.x05] (set_space 2 sample_block)))
                [Byte.xc3] 1
              = Some (set_size 3 (set_code ([Byte.x0f; Byte.x05; Byte.xc3]
                                             ++ replicate 1023 Byte.xcc)
                                    (set_space 1026 sample_block))))
    by (vm_compute; reflexivity).
  split; [exact H|].
  apply (rvjit_put_code_frame _ _ _ _ _ _ H).
Defined.

(** ** The dirty-page tracker *)

Lemma page_word_bit (page : Z) :
  Z.shiftr page 5 = page / 32 /\ Z.land page 31 = page mod 32.
Proof.
  split.
  - now rewrite Z.shiftr_div_pow2 by lia.
  - change 31 with (Z.ones 5). now rewrite Z.land_ones by lia.
Qed.

Lemma dirty_word_mark_same (hp : rvjit_heap_t) (q : Z) :
  dirty_word (rvjit_mark_dirty_page hp q) (Z.shiftr q 5)
  = Z.lor (dirty_word hp (Z.shiftr q 5)) (Z.shiftl 1 (Z.land q 31)).
Proof.
  unfold rvjit_mark_dirty_page, dirty_word at 1. cbn.
  now rewrite lookup_insert_eq.
Qed.

Lemma dirty_word_mark_other (hp : rvjit_heap_t) (q w : Z) :
  w <> Z.shiftr q 5 ->
  dirty_word (rvjit_mark_dirty_page hp q) w = dirty_word hp w.
Proof.
  intros Hw. unfold rvjit_mark_dirty_page, dirty_word at 1. cbn.
  now rewrite lookup_insert_ne by congruence.
Qed.

(** Marking page [q] sets its bit and no other. *)
Lemma page_dirty_mark_page (hp : rvjit_heap_t) (q p : Z) :
  page_dirty (rvjit_mark_dirty_page hp q) p = (p =? q) || page_dirty hp p.
Proof.
  unfold page_dirty.
  destruct (page_word_bit p) as [Hpw Hpb], (page_word_bit q) as [Hqw Hqb].
  assert (Hp : 0 <= p mod 32 < 32) by (apply Z.mod_pos_bound; lia).
  assert (Hq : 0 <= q mod 32 < 32) by (apply Z.mod_pos_bound; lia).
  pose proof (Z.div_mod p 32 ltac:(lia)) as Hpd.
  pose proof (Z.div_mod q 32 ltac:(lia)) as Hqd.
  destruct (Z.eq_dec (Z.shiftr p 5) (Z.shiftr q 5)) as [Hw|Hw].
  - rewrite Hw, dirty_word_mark_same, Z.lor_spec, <- Hw.
    rewrite Z.shiftl_1_l, Z.pow2_bits_eqb by lia.
    rewrite orb_comm. f_equal.
    rewrite Hpb, Hqb. rewrite Hpw, Hqw in Hw.
    destruct (Z.eqb_spec p q) as [->|Hne].
    + apply Z.eqb_refl.
    + apply Z.eqb_neq. lia.
  - rewrite dirty_word_mark_other by assumption.
    replace (p =? q) with false; [reflexivity|].
    symmetry. apply Z.eqb_neq. congruence.
Qed.

(** Marking [n] pages from [first] on sets the bits of exactly these. *)
Lemma page_dirty_mark_pages (n : nat) :
  forall (first : Z) (hp : rvjit_heap_t) (p : Z),
    page_dirty (mark_dirty_pages n first hp) p
    = (first <=? p) && (p <? first + Z.of_nat n) || page_dirty hp p.
Proof.
  induction n as [|n IH]; intros first hp p.
  - cbn [mark_dirty_pages].
    replace ((first <=? p) && (p <? first + Z.of_nat 0)) with false; [reflexivity|].
    symmetry. apply andb_false_iff.
    destruct (Z.leb_spec first p); [right; apply Z.ltb_ge; lia | now left].
  - cbn [mark_dirty_pages]. rewrite IH, page_dirty_mark_page.
    rewrite orb_assoc. f_equal.
    destruct (Z.leb_spec (first + 1) p), (Z.leb_spec first p),
      (Z.ltb_spec p (first + 1 + Z.of_nat n)),
      (Z.ltb_spec p (first + Z.of_nat (S n))),
      (Z.eqb_spec p first); cbn; try reflexivity; lia.
Qed.

Lemma mark_dirty_pages_fields (n : nat) :
  forall (first : Z) (hp : rvjit_heap_t),
    mark_dirty_pages n first hp
    = set_heap_dirty_pages (heap_dirty_pages (mark_dirty_pages n first hp)) hp.
Proof.
  induction n as [|n IH]; intros first hp; cbn [mark_dirty_pages].
  - now destruct hp.
  - rewrite IH at 1. reflexivity.
Qed.

(** [page_overlaps] says that some byte of the range lies on the page. *)
Lemma page_overlaps_spec (page addr len : Z) :
  page_overlaps page addr len = true <->
  exists a, addr <= a < addr + len /\ Z.shiftr a PAGE_SHIFT = page.
Proof.
  unfold page_overlaps, PAGE_SHIFT, PAGE_SIZE.
  rewrite !andb_true_iff, !Z.ltb_lt. split.
  - intros [[Hlen Hlo] Hhi].
    exists (Z.max addr (page * 4096)). split; [lia|].
    rewrite Z.shiftr_div_pow2 by lia. change (2 ^ 12) with 4096.
    symmetry. apply Z.div_unique with (r := Z.max addr (page * 4096) - page * 4096); lia.
  - intros (a & Ha & Hpage).
    rewrite Z.shiftr_div_pow2 in Hpage by lia. change (2 ^ 12) with 4096 in Hpage.
    pose proof (Z.div_mod a 4096 ltac:(lia)) as Hd.
    pose proof (Z.mod_pos_bound a 4096 ltac:(lia)) as Hm.
    subst page. lia.
Qed.

Example mark_dirty_straddling_write :
  map (page_dirty (heap (rvjit_mark_dirty_mem sample_block 4095 2))) [0; 1; 2]
  = [true; true; false].
Proof. vm_compute. reflexivity. Qed.

Example mark_dirty_across_words :
  map (page_dirty (heap (rvjit_mark_dirty_mem sample_block (31 * 4096) 8193)))
    [30; 31; 32; 33; 34]
  = [false; true; true; true; false].
Proof. vm_compute. reflexivity. Qed.

(** C6: [rvjit_mark_dirty_mem (block, addr, size)] sets the dirty bit, in
    the bit array indexed by [physaddr >> 12], of every 4096-byte page that
    overlaps [addr, addr + size) and leaves the bits of all other pages, and
    everything but the bit array, unchanged. *)
Theorem rvjit_mark_dirty_mem_pages (b : rvjit_block_t) (addr len page : Z) :
  page_dirty (heap (rvjit_mark_dirty_mem b addr len)) page
  = page_overlaps page addr len || page_dirty (heap b) page /\
  (page_overlaps page addr len = true <->
   exists a, addr <= a < addr + len /\ Z.shiftr a PAGE_SHIFT = page) /\
  rvjit_mark_dirty_mem b addr len
  = set_heap (set_heap_dirty_pages
                (heap_dirty_pages (heap (rvjit_mark_dirty_mem b addr len)))
                (heap b)) b.
Proof.
  split; [|split; [apply page_overlaps_spec|]].
  - unfold rvjit_mark_dirty_mem, page_overlaps, PAGE_SHIFT, PAGE_SIZE.
    destruct (Z.leb_spec len 0) as [Hle|Hpos].
    + replace (0 <? len) with false by (symmetry; apply Z.ltb_ge; lia).
      reflexivity.
    + replace (0 <? len) with true by (symmetry; apply Z.ltb_lt; lia).
      cbn [heap set_heap]. rewrite page_dirty_mark_pages. f_equal.
      rewrite !Z.shiftr_div_pow2 by lia. change (2 ^ 12) with 4096.
      pose proof (Z.div_mod addr 4096 ltac:(lia)) as Hd1.
      pose proof (Z.mod_pos_bound addr 4096 ltac:(lia)) as Hm1.
      pose proof (Z.div_mod (addr + len - 1) 4096 ltac:(lia)) as Hd2.
      pose proof (Z.mod_pos_bound (addr + len - 1) 4096 ltac:(lia)) as Hm2.
      set (first := addr / 4096) in *. set (last := (addr + len - 1) / 4096) in *.
      assert (Hfl : first <= last) by lia.
      rewrite Z2Nat.id by lia. cbn [andb].
      destruct (Z.leb_spec first page), (Z.ltb_spec page (first + (last - first + 1))),
        (Z.ltb_spec addr ((page + 1) * 4096)),
        (Z.ltb_spec (page * 4096) (addr + len)); cbn; try reflexivity; lia.
  - unfold rvjit_mark_dirty_mem. destruct (len <=? 0).
    + now destruct b as [[] ? ? ? ? ? ? ? ? ? ? ? ?].
    + cbn [heap set_heap]. rewrite mark_dirty_pages_fields at 1.
      now destruct b.
Qed.

(** ** The block cache *)

Example finalize_sample :
  fst (rvjit_block_finalize HOST_X86_64 sample_patch
         (emitted 0x80000000 [Byte.xc3] [] sample_block)) = Some 0.
Proof. vm_compute. reflexivity. Qed.

Example finalize_sample_heap_full :
  fst (rvjit_block_finalize HOST_X86_64 sample_patch
         (emitted 0x80000000 (replicate (Z.to_nat 8193) Byte.x90) [] sample_block))
  = None.
Proof. vm_compute. reflexivity. Qed.

(** The two outcomes of [rvjit_block_finalize]. *)
Lemma rvjit_block_finalize_cases (h : host_arch)
    (patch : list Byte.byte -> Z -> Z -> list Byte.byte) (b : rvjit_block_t) :
  (heap_size (heap b) < heap_next_entry (heap b) + size b /\
   rvjit_block_finalize h patch b = (None, b))
  \/ (heap_next_entry (heap b) + size b <= heap_size (heap b) /\
      exists b',
        rvjit_block_finalize h patch b = (Some (heap_next_entry (heap b)), b') /\
        heap_blocks (heap b')
        = <[phys_pc b := heap_next_entry (heap b)]> (heap_blocks (heap b)) /\
        heap_curr (heap b') = heap_next_entry (heap b) + size b /\
        heap_size (heap b') = heap_size (heap b) /\
        heap_dirty_pages (heap b') = heap_dirty_pages (heap b)).
Proof.
  unfold rvjit_block_finalize.
  destruct (Z.ltb_spec (heap_size (heap b)) (heap_next_entry (heap b) + size b))
    as [Hfull|Hfits].
  - left. split; [assumption | reflexivity].
  - right. split; [assumption|].
    destruct (RVJIT_NATIVE_LINKER h).
    + destruct (foldl _ _ _) as [a1 p1]. cbn.
      eexists. split; [reflexivity|]. cbn. auto.
    + eexists. split; [reflexivity|]. cbn. auto.
Qed.

Lemma align_up_ge (x : Z) : x <= align_up x PAGE_SIZE.
Proof.
  unfold align_up, PAGE_SIZE.
  pose proof (Z.div_mod (x + 4096 - 1) 4096 ltac:(lia)).
  pose proof (Z.mod_pos_bound (x + 4096 - 1) 4096 ltac:(lia)). lia.
Qed.

Lemma align_up_aligned (x : Z) : align_up x PAGE_SIZE mod PAGE_SIZE = 0.
Proof. unfold align_up, PAGE_SIZE. apply Z.mod_mul. lia. Qed.

(** Along a history the block map of the heap and the log of returned
    pointers agree. *)
Lemma run_events_blocks (h : host_arch)
    (patch : list Byte.byte -> Z -> Z -> list Byte.byte) (evs : list jit_event) :
  forall (b : rvjit_block_t) (log : gmap Z Z),
    heap_blocks (heap b) = log ->
    heap_blocks (heap (fst (run_events h patch evs b log)))
    = snd (run_events h patch evs b log).
Proof.
  induction evs as [|ev evs IH]; intros b log Hlog.
  - exact Hlog.
  - destruct ev as [pc body lnk | | addr len]; cbn [run_events].
    + destruct (rvjit_block_finalize_cases h patch (emitted pc body lnk b))
        as [(_ & E) | (_ & b1 & E & Hblocks & _)]; rewrite E.
      * apply IH. exact Hlog.
      * apply IH. rewrite Hblocks. cbn. now rewrite Hlog.
    + apply IH. reflexivity.
    + apply IH. rewrite <- Hlog. unfold rvjit_mark_dirty_mem.
      destruct (len <=? 0); [reflexivity|]. cbn [heap set_heap].
      rewrite mark_dirty_pages_fields. reflexivity.
Qed.

(** The log has no entry for a PC at which nothing was finalized since the
    last flush. *)
Lemma run_events_log_None (h : host_arch)
    (patch : list Byte.byte -> Z -> Z -> list Byte.byte) (p : Z)
    (evs : list jit_event) :
  forall (b : rvjit_block_t) (log : gmap Z Z) (seen : bool),
    (seen = false -> log !! p = None) ->
    finalized_since_flush evs p seen = false ->
    snd (run_events h patch evs b log) !! p = None.
Proof.
  induction evs as [|ev evs IH]; intros b log seen Hlog Hfin.
  - cbn in *. auto.
  - destruct ev as [pc body lnk | | addr len];
      cbn [run_events finalized_since_flush] in *.
    + destruct (rvjit_block_finalize h patch (emitted pc body lnk b)) as [f b1].
      apply (IH _ _ (seen || (pc =? p))); [|assumption].
      intros Hs. apply orb_false_iff in Hs as [Hs Hpc].
      apply Z.eqb_neq in Hpc.
      destruct f as [entry|]; [rewrite lookup_insert_ne by assumption|]; auto.
    + apply (IH _ _ false); [|assumption]. intros _. apply lookup_empty.
    + apply (IH _ _ seen); assumption.
Qed.

Example history_sample :
  let evs := [EvFinalize 0x80000000 [Byte.xc3] [(0x80001000, 0)];
              EvMarkDirty 0x80000ff0 32;
              EvFinalize 0x80001000 [Byte.x90; Byte.xc3] []] in
  let b := fst (run_events HOST_X86_64 sample_patch evs
                  (rvjit_flush_cache sample_block) ∅) in
  (rvjit_block_lookup b 0x80000000, rvjit_block_lookup b 0x80001000,
   rvjit_block_lookup b 0x80002000,
   rvjit_block_lookup (rvjit_flush_cache b) 0x80000000)
  = (Some 0, Some 4096, None, None).
Proof. vm_compute. reflexivity. Qed.

(** C3: a block finalized with success at guest physical PC [p] is in the
    lookup cache under key [p]: [rvjit_block_lookup] with key [p] then
    returns the pointer that [rvjit_block_finalize] returned.  Along any
    history that starts with a flush, [rvjit_block_lookup] answers with the
    pointer returned by the latest successful finalize at that PC since the
    last flush, and with NULL for every PC at which no block has been
    finalized since the last flush. *)
Theorem rvjit_block_finalize_lookup (h : host_arch)
    (patch : list Byte.byte -> Z -> Z -> list Byte.byte) :
  (forall (b b' : rvjit_block_t) (f : Z),
     rvjit_block_finalize h patch b = (Some f, b') ->
     rvjit_block_lookup b' (phys_pc b) = Some f) /\
  (forall (evs : list jit_event) (b0 : rvjit_block_t) (p : Z),
     rvjit_block_lookup
       (fst (run_events h patch evs (rvjit_flush_cache b0) ∅)) p
     = snd (run_events h patch evs (rvjit_flush_cache b0) ∅) !! p) /\
  (forall (evs : list jit_event) (b0 : rvjit_block_t) (p : Z),
     finalized_since_flush evs p false = false ->
     rvjit_block_lookup
       (fst (run_events h patch evs (rvjit_flush_cache b0) ∅)) p = None).
Proof.
  assert (Hlookup : forall evs b0 p,
             rvjit_block_lookup
               (fst (run_events h patch evs (rvjit_flush_cache b0) ∅)) p
             = snd (run_events h patch evs (rvjit_flush_cache b0) ∅) !! p).
  { intros evs b0 p. unfold rvjit_block_lookup.
    rewrite run_events_blocks; reflexivity. }
  split; [|split].
  - intros b b' f Hfin.
    destruct (rvjit_block_finalize_cases h patch b)
      as [(_ & E) | (_ & b1 & E & Hblocks & _)]; rewrite E in Hfin.
    + discriminate.
    + injection Hfin as <- <-. unfold rvjit_block_lookup.
      rewrite Hblocks. apply lookup_insert_eq.
  - exact Hlookup.
  - intros evs b0 p Hfin. rewrite Hlookup.
    apply (run_events_log_None h patch p evs _ _ false); [|assumption].
    intros _. apply lookup_empty.
Qed.

Lemma rvjit_block_finalize_lookup_witness :
  rvjit_block_finalize HOST_X86_64 sample_patch
    (emitted 0x80000000 [Byte.xc3] [] sample_block)
  = (Some 0, snd (rvjit_block_finalize HOST_X86_64 sample_patch
                    (emitted 0x80000000 [Byte.xc3] [] sample_block))) /\
  rvjit_block_lookup
    (snd (rvjit_block_finalize HOST_X86_64 sample_patch
            (emitted 0x80000000 [Byte.xc3] [] sample_block)))
    (phys_pc (emitted 0x80000000 [Byte.xc3] [] sample_block)) = Some 0 /\
  finalized_since_flush [EvFinalize 0x80000000 [Byte.xc3] []] 0x80001000 false
  = false /\
  rvjit_block_lookup
    (fst (run_events HOST_X86_64 sample_patch
            [EvFinalize 0x80000000 [Byte.xc3] []]
            (rvjit_flush_cache sample_block) ∅))
    0x80001000 = None.
Proof.
  assert (H : rvjit_block_finalize HOST_X86_64 sample_patch
                (emitted 0x80000000 [Byte.xc3] [] sample_block)
              = (Some 0, snd (rvjit_block_finalize HOST_X86_64 sample_patch
                                (emitted 0x80000000 [Byte.xc3] [] sample_block))))
    by (vm_compute; reflexivity).
  assert (H' : finalized_since_flush [EvFinalize 0x80000000 [Byte.xc3] []]
                 0x80001000 false = false)
    by reflexivity.
  split; [exact H|]. split; [|split; [exact H'|]].
  - exact (proj1 (rvjit_block_finalize_lookup HOST_X86_64 sample_patch) _ _ _ H).
  - exact (proj2 (proj2 (rvjit_block_finalize_lookup HOST_X86_64 sample_patch))
             _ sample_block _ H').
Defined.

(** C4: [rvjit_block_finalize] returns NULL exactly when the room left in
    the code heap after the next block entry is smaller than the block;
    otherwise it returns a non-NULL pointer to an entry inside the heap with
    room for the whole block; on the NULL outcome the heap, and with it the
    lookup cache, is as before. *)
Theorem rvjit_block_finalize_null_iff_full (h : host_arch)
    (patch : list Byte.byte -> Z -> Z -> list Byte.byte) (b : rvjit_block_t) :
  heap_ok b ->
  (fst (rvjit_block_finalize h patch b) = None <->
   heap_size (heap b) - heap_next_entry (heap b) < size b) /\
  (heap_size (heap b) - heap_next_entry (heap b) >= size b ->
   exists f, fst (rvjit_block_finalize h patch b) = Some f /\
             0 <= f /\ f + size b <= heap_size (heap b)) /\
  (fst (rvjit_block_finalize h patch b) = None ->
   snd (rvjit_block_finalize h patch b) = b /\
   forall p, rvjit_block_lookup (snd (rvjit_block_finalize h patch b)) p
             = rvjit_block_lookup b p).
Proof.
  unfold heap_ok. intros Hcurr.
  pose proof (align_up_ge (heap_curr (heap b))) as Hal.
  fold (heap_next_entry (heap b)) in Hal.
  destruct (rvjit_block_finalize_cases h patch b)
    as [(Hfull & E) | (Hfits & b1 & E & _)]; rewrite E; cbn [fst snd].
  - split; [split; [lia | reflexivity]|]. split; [lia|]. auto.
  - split; [split; [discriminate | lia]|]. split; [|discriminate].
    intros _. eexists. split; [reflexivity|]. lia.
Qed.

Lemma rvjit_block_finalize_null_iff_full_witness :
  heap_ok (emitted 0x80000000 (replicate (Z.to_nat 8193) Byte.x90) [] sample_block) /\
  fst (rvjit_block_finalize HOST_ARM sample_patch
         (emitted 0x80000000 (replicate (Z.to_nat 8193) Byte.x90) [] sample_block))
  = None /\
  snd (rvjit_block_finalize HOST_ARM sample_patch
         (emitted 0x80000000 (replicate (Z.to_nat 8193) Byte.x90) [] sample_block))
  = emitted 0x80000000 (replicate (Z.to_nat 8193) Byte.x90) [] sample_block.
Proof.
  assert (H : heap_ok (emitted 0x80000000 (replicate (Z.to_nat 8193) Byte.x90) []
                         sample_block))
    by (unfold heap_ok; vm_compute; congruence).
  assert (H0 : fst (rvjit_block_finalize HOST_ARM sample_patch
                      (emitted 0x80000000 (replicate (Z.to_nat 8193) Byte.x90) []
                         sample_block)) = None)
    by (vm_compute; reflexivity).
  split; [exact H|]. split; [exact H0|].
  exact (proj1 (proj2 (proj2 (rvjit_block_finalize_null_iff_full HOST_ARM sample_patch
                                _ H)) H0)).
Defined.

(** ** Flushing *)

(** C5: [rvjit_flush_cache] resets the heap's allocation offset to zero,
    empties the block-lookup map and the pending-link map and clears every
    dirty-page bit; after it [rvjit_block_lookup] returns NULL for every
    guest physical PC. *)
Theorem rvjit_flush_cache_clears (b : rvjit_block_t) :
  heap_curr (heap (rvjit_flush_cache b)) = 0 /\
  heap_blocks (heap (rvjit_flush_cache b)) = ∅ /\
  heap_block_links (heap (rvjit_flush_cache b)) = ∅ /\
  (forall page, page_dirty (heap (rvjit_flush_cache b)) page = false) /\
  (forall p, rvjit_block_lookup (rvjit_flush_cache b) p = None).
Proof.
  unfold rvjit_flush_cache, rvjit_block_lookup. cbn [heap set_heap heap_curr
    heap_blocks heap_block_links].
  do 3 (split; [reflexivity|]). split.
  - intros page. unfold page_dirty, dirty_word. cbn [heap_dirty_pages].
    rewrite lookup_empty. apply Z.bits_0.
  - intros p. apply lookup_empty.
Qed.

Example flush_after_finalize :
  rvjit_block_lookup
    (rvjit_flush_cache
       (snd (rvjit_block_finalize HOST_X86_64 sample_patch
               (emitted 0x80000000 [Byte.xc3] [] sample_block))))
    0x80000000 = None.
Proof. vm_compute. reflexivity. Qed.

(** * Further properties of the register allocator *)

(** Below [size_t]'s width the bits of the written-back mask need no
    assumption on the mask. *)
Lemma testbit_claimed_mask_low (h : host_arch) (m r j : Z) :
  0 <= r < RVJIT_REGISTERS -> 0 <= j < RVJIT_REGISTERS ->
  Z.testbit (claimed_mask h m r) j = Z.testbit m j && negb (r =? j).
Proof.
  unfold RVJIT_REGISTERS, claimed_mask. intros Hr Hj.
  pose proof (size_t_bits_bounds h) as Hw.
  rewrite rvjit_hreg_mask_pow2 by lia.
  rewrite Z.land_spec. unfold size_t_wrap.
  rewrite Z.mod_pow2_bits_low by lia.
  rewrite Z.lnot_spec, Z.pow2_bits_eqb by lia. reflexivity.
Qed.

(** A non-negative number without bits at or above the width of [size_t]
    is a [size_t] value. *)
Lemma size_t_range_of_bits (h : host_arch) (x : Z) :
  0 <= x ->
  (forall j, size_t_bits h <= j -> Z.testbit x j = false) ->
  size_t_range h x.
Proof.
  intros Hx Hbits. pose proof (size_t_bits_bounds h) as Hw.
  assert (E : x mod 2 ^ size_t_bits h = x).
  { apply Z.bits_inj'. intros j Hj.
    destruct (Z.lt_ge_cases j (size_t_bits h)).
    - apply Z.mod_pow2_bits_low. lia.
    - rewrite Z.mod_pow2_bits_high by lia. symmetry. now apply Hbits. }
  unfold size_t_range. rewrite <- E. apply Z.mod_pos_bound.
  apply Z.pow_pos_nonneg; lia.
Qed.

Lemma size_t_range_land (h : host_arch) (m x : Z) :
  size_t_range h m -> size_t_range h (Z.land m x).
Proof.
  intros Hm. apply size_t_range_of_bits.
  - apply Z.land_nonneg. left. apply Hm.
  - intros j Hj. rewrite Z.land_spec, (testbit_size_t_high h m j Hm Hj).
    reflexivity.
Qed.

Lemma size_t_range_wrap (h : host_arch) (x : Z) : size_t_range h (size_t_wrap h x).
Proof.
  unfold size_t_range, size_t_wrap. pose proof (size_t_bits_bounds h).
  apply Z.mod_pos_bound. apply Z.pow_pos_nonneg; lia.
Qed.

Lemma size_t_range_lor (h : host_arch) (m x : Z) :
  size_t_range h m -> size_t_range h x -> size_t_range h (Z.lor m x).
Proof.
  intros Hm Hx. apply size_t_range_of_bits.
  - apply Z.lor_nonneg. split; [apply Hm | apply Hx].
  - intros j Hj.
    rewrite Z.lor_spec, (testbit_size_t_high h m j Hm Hj),
      (testbit_size_t_high h x j Hx Hj). reflexivity.
Qed.

(** What [rvjit_try_claim_hreg] returns depends on bits 0..31 only. *)
Lemma rvjit_try_claim_hreg_low_bits (h : host_arch) (b1 b2 : rvjit_block_t) :
  (forall j, 0 <= j < RVJIT_REGISTERS ->
             Z.testbit (hreg_mask b1) j = Z.testbit (hreg_mask b2) j) ->
  fst (rvjit_try_claim_hreg h b1) = fst (rvjit_try_claim_hreg h b2).
Proof.
  intros Hsame.
  destruct (rvjit_try_claim_hreg_spec h b1)
    as [(r1 & Hr1 & Hset1 & Hlow1 & E1) | (Hnone1 & E1)];
  destruct (rvjit_try_claim_hreg_spec h b2)
    as [(r2 & Hr2 & Hset2 & Hlow2 & E2) | (Hnone2 & E2)];
  rewrite E1, E2; cbn [fst].
  - destruct (Z.lt_trichotomy r1 r2) as [Hlt | [Heq | Hgt]]; [|assumption|].
    + specialize (Hlow2 r1 ltac:(lia)).
      rewrite <- Hsame, Hset1 in Hlow2 by lia. discriminate.
    + specialize (Hlow1 r2 ltac:(lia)).
      rewrite Hsame, Hset2 in Hlow1 by lia. discriminate.
  - rewrite Hsame, Hnone2 in Hset1 by assumption. discriminate.
  - rewrite <- Hsame, Hnone1 in Hset2 by assumption. discriminate.
  - reflexivity.
Qed.

(** X1: the register that [rvjit_try_claim_hreg] hands out is the free
    register with the lowest index: every bit of [hreg_mask] below the
    returned index is clear. *)
Theorem rvjit_try_claim_hreg_lowest (h : host_arch) (b b' : rvjit_block_t) (r : Z) :
  rvjit_try_claim_hreg h b = (r, b') ->
  r <> REG_ILL ->
  forall j, 0 <= j < r -> Z.testbit (hreg_mask b) j = false.
Proof.
  intros Hclaim Hill.
  destruct (rvjit_try_claim_hreg_spec h b)
    as [(r0 & _ & _ & Hlow & Heq) | (_ & Heq)];
    rewrite Heq in Hclaim; inversion Hclaim; subst; [assumption | congruence].
Qed.

Lemma rvjit_try_claim_hreg_lowest_witness :
  rvjit_try_claim_hreg HOST_ARM64 (set_hreg_mask 40 sample_block)
  = (3, set_hreg_mask 32 sample_block) /\
  3 <> REG_ILL /\
  forall j, 0 <= j < 3 -> Z.testbit (hreg_mask (set_hreg_mask 40 sample_block)) j = false.
Proof.
  assert (H2 : (3 : Z) <> REG_ILL) by (unfold REG_ILL; lia).
  split; [reflexivity|]. split; [exact H2|].
  exact (rvjit_try_claim_hreg_lowest HOST_ARM64 (set_hreg_mask 40 sample_block)
           (set_hreg_mask 32 sample_block) 3 eq_refl H2).
Defined.

(** With bits 0..31 clear there is nothing to claim. *)
Lemma rvjit_try_claim_hreg_ill_iff_aux (h : host_arch) (b : rvjit_block_t) :
  (forall j, 0 <= j < RVJIT_REGISTERS -> Z.testbit (hreg_mask b) j = false) <->
  fst (rvjit_try_claim_hreg h b) = REG_ILL.
Proof.
  destruct (rvjit_try_claim_hreg_spec h b)
    as [(r & Hr & Hset & _ & Heq) | (Hnone & Heq)]; rewrite Heq; cbn [fst].
  - assert (Hne : r <> REG_ILL) by (unfold RVJIT_REGISTERS, REG_ILL in *; lia).
    split; [|congruence].
    intros Hnone. rewrite (Hnone r Hr) in Hset. discriminate.
  - split; auto.
Qed.

(** X2: [rvjit_try_claim_hreg] answers [REG_ILL] exactly when bits 0..31 of
    [hreg_mask] are all clear, whatever the bits above them are, and it then
    leaves the block as it was. *)
Theorem rvjit_try_claim_hreg_ill (h : host_arch) (b : rvjit_block_t) :
  (fst (rvjit_try_claim_hreg h b) = REG_ILL <->
   forall j, 0 <= j < RVJIT_REGISTERS -> Z.testbit (hreg_mask b) j = false) /\
  (fst (rvjit_try_claim_hreg h b) = REG_ILL -> snd (rvjit_try_claim_hreg h b) = b).
Proof.
  destruct (rvjit_try_claim_hreg_spec h b)
    as [(r & Hr & Hset & _ & Heq) | (Hnone & Heq)]; rewrite Heq; cbn [fst snd].
  - assert (Hne : r <> REG_ILL) by (unfold RVJIT_REGISTERS, REG_ILL in *; lia).
    split; [split|]; try congruence.
    intros Hnone. rewrite (Hnone r Hr) in Hset. discriminate.
  - split; [split|]; auto.
Qed.

(** X3: two successful claims in a row hand out different registers, the
    second with the higher index. *)
Theorem rvjit_try_claim_hreg_twice (h : host_arch) (b b1 b2 : rvjit_block_t)
    (r1 r2 : Z) :
  rvjit_try_claim_hreg h b = (r1, b1) -> r1 <> REG_ILL ->
  rvjit_try_claim_hreg h b1 = (r2, b2) -> r2 <> REG_ILL ->
  r1 < r2.
Proof.
  intros H1 Hill1 H2 Hill2.
  destruct (rvjit_try_claim_hreg_spec h b)
    as [(r & Hr & Hset & Hlow & Heq) | (_ & Heq)];
    rewrite Heq in H1; inversion H1; subst; [|congruence].
  clear H1 Hill1.
  destruct (rvjit_try_claim_hreg_spec h
              (set_hreg_mask (claimed_mask h (hreg_mask b) r1) b))
    as [(r & Hr' & Hset' & _ & Heq') | (_ & Heq')];
    rewrite Heq' in H2; inversion H2; subst; [|congruence].
  cbn [hreg_mask set_hreg_mask] in Hset'.
  rewrite testbit_claimed_mask_low in Hset' by assumption.
  apply andb_true_iff in Hset' as [Hbit Hne].
  apply negb_true_iff, Z.eqb_neq in Hne.
  destruct (Z.lt_ge_cases r2 r1) as [Hlt|Hge]; [|lia].
  rewrite (Hlow r2 ltac:(lia)) in Hbit. discriminate.
Qed.

Lemma rvjit_try_claim_hreg_twice_witness :
  rvjit_try_claim_hreg HOST_X86_64 sample_block = (2, set_hreg_mask 8 sample_block) /\
  rvjit_try_claim_hreg HOST_X86_64 (set_hreg_mask 8 sample_block)
  = (3, set_hreg_mask 0 sample_block) /\
  2 < 3.
Proof.
  assert (H2 : (2 : Z) <> REG_ILL) by (unfold REG_ILL; lia).
  assert (H3 : (3 : Z) <> REG_ILL) by (unfold REG_ILL; lia).
  split; [reflexivity|]. split; [reflexivity|].
  exact (rvjit_try_claim_hreg_twice HOST_X86_64 sample_block
           (set_hreg_mask 8 sample_block) (set_hreg_mask 0 sample_block) 2 3
           eq_refl H2 eq_refl H3).
Defined.

(** X4: [rvjit_try_claim_hreg] and [rvjit_free_hreg] change no field of the
    block but [hreg_mask] and keep it a [size_t] value; a claim sets no bit
    of the mask. *)
Theorem hreg_mask_stays_size_t (h : host_arch) (b : rvjit_block_t) (r : Z) :
  size_t_range h (hreg_mask b) ->
  0 <= r < 64 ->
  size_t_range h (hreg_mask (snd (rvjit_try_claim_hreg h b))) /\
  size_t_range h (hreg_mask (rvjit_free_hreg h b r)) /\
  snd (rvjit_try_claim_hreg h b)
  = set_hreg_mask (hreg_mask (snd (rvjit_try_claim_hreg h b))) b /\
  rvjit_free_hreg h b r = set_hreg_mask (hreg_mask (rvjit_free_hreg h b r)) b /\
  (forall j, Z.testbit (hreg_mask (snd (rvjit_try_claim_hreg h b))) j = true ->
             Z.testbit (hreg_mask b) j = true).
Proof.
  intros Hm _.
  assert (Hfree : size_t_range h (hreg_mask (rvjit_free_hreg h b r))).
  { unfold rvjit_free_hreg. cbn [hreg_mask set_hreg_mask].
    apply size_t_range_lor; [assumption|]. apply size_t_range_wrap. }
  destruct (rvjit_try_claim_hreg_spec h b)
    as [(r0 & Hr & _ & _ & Heq) | (_ & Heq)]; rewrite Heq;
    cbn [snd hreg_mask set_hreg_mask].
  - split; [apply size_t_range_land; assumption|]. split; [assumption|].
    split; [reflexivity|]. split; [reflexivity|].
    intros j Hj. unfold claimed_mask in Hj. rewrite Z.land_spec in Hj.
    now apply andb_true_iff in Hj as [Hj _].
  - split; [assumption|]. split; [assumption|].
    split; [now destruct b|]. split; [reflexivity|]. auto.
Qed.

Lemma hreg_mask_stays_size_t_witness :
  size_t_range HOST_I386 (hreg_mask sample_block) /\
  size_t_range HOST_I386 (hreg_mask (snd (rvjit_try_claim_hreg HOST_I386 sample_block))) /\
  size_t_range HOST_I386 (hreg_mask (rvjit_free_hreg HOST_I386 sample_block 5)).
Proof.
  assert (H1 : size_t_range HOST_I386 (hreg_mask sample_block))
    by (unfold size_t_range; vm_compute; split; [discriminate | reflexivity]).
  split; [exact H1|].
  pose proof (hreg_mask_stays_size_t HOST_I386 sample_block 5 H1 ltac:(lia)) as H.
  split; [exact (proj1 H) | exact (proj1 (proj2 H))].
Defined.

(** X5: freeing register [r < 32] when no register with index up to [r]
    is free and claiming right after gives [r] back and the block as it
    was before the free. *)
Theorem rvjit_free_then_try_claim (h : host_arch) (b : rvjit_block_t) (r : Z) :
  size_t_range h (hreg_mask b) ->
  0 <= r < RVJIT_REGISTERS ->
  (forall j, 0 <= j <= r -> Z.testbit (hreg_mask b) j = false) ->
  rvjit_try_claim_hreg h (rvjit_free_hreg h b r) = (r, b).
Proof.
  intros Hm Hr Hclear. unfold RVJIT_REGISTERS in Hr.
  assert (Hfm : hreg_mask (rvjit_free_hreg h b r) = Z.lor (hreg_mask b) (2 ^ r)).
  { unfold rvjit_free_hreg. cbn [hreg_mask set_hreg_mask].
    now rewrite rvjit_hreg_mask_pow2 by lia. }
  assert (Hfr : size_t_range h (Z.lor (hreg_mask b) (2 ^ r))).
  { apply size_t_range_lor; [assumption|].
    pose proof (pow2_le_size_t h r Hr). unfold size_t_range. lia. }
  destruct (rvjit_try_claim_hreg_spec h (rvjit_free_hreg h b r))
    as [(r0 & Hr0 & Hset & Hlow & Heq) | (Hnone & Heq)]; rewrite Heq.
  - rewrite Hfm in Hset, Hlow |- *.
    assert (r0 = r) as ->.
    { destruct (Z.lt_trichotomy r0 r) as [Hlt | [E | Hgt]]; [|assumption|].
      - rewrite Z.lor_spec, Z.pow2_bits_eqb, (Hclear r0) in Hset by lia.
        replace (r =? r0) with false in Hset by (symmetry; apply Z.eqb_neq; lia).
        discriminate.
      - specialize (Hlow r ltac:(lia)).
        rewrite Z.lor_spec, Z.pow2_bits_eqb, Z.eqb_refl, orb_true_r in Hlow by lia.
        discriminate. }
    f_equal. unfold rvjit_free_hreg. rewrite set_hreg_mask_twice.
    transitivity (set_hreg_mask (hreg_mask b) b); [|apply set_hreg_mask_id].
    f_equal.
    apply Z.bits_inj'. intros j Hj.
    rewrite testbit_claimed_mask by assumption.
    rewrite Z.lor_spec, Z.pow2_bits_eqb by lia.
    destruct (Z.eqb_spec r j) as [->|Hne]; cbn.
    + rewrite andb_false_r. symmetry. apply Hclear. lia.
    + now rewrite orb_false_r, andb_true_r.
  - specialize (Hnone r Hr).
    rewrite Hfm, Z.lor_spec, Z.pow2_bits_eqb, Z.eqb_refl, orb_true_r in Hnone by lia.
    discriminate.
Qed.

Lemma rvjit_free_then_try_claim_witness :
  size_t_range HOST_RISCV32 (hreg_mask sample_block) /\
  0 <= 1 < RVJIT_REGISTERS /\
  rvjit_try_claim_hreg HOST_RISCV32 (rvjit_free_hreg HOST_RISCV32 sample_block 1)
  = (1, sample_block).
Proof.
  assert (H1 : size_t_range HOST_RISCV32 (hreg_mask sample_block))
    by (unfold size_t_range; vm_compute; split; [discriminate | reflexivity]).
  assert (H2 : 0 <= 1 < RVJIT_REGISTERS) by (unfold RVJIT_REGISTERS; lia).
  split; [exact H1|]. split; [exact H2|].
  apply (rvjit_free_then_try_claim HOST_RISCV32 sample_block 1 H1 H2).
  intros j Hj. assert (j = 0 \/ j = 1) as [-> | ->] by lia; reflexivity.
Defined.

(** X6: freeing a register twice is the same as freeing it once, and the
    order in which two registers are freed does not matter. *)
Theorem rvjit_free_hreg_idempotent_commutative (h : host_arch) (b : rvjit_block_t)
    (r1 r2 : Z) :
  rvjit_free_hreg h (rvjit_free_hreg h b r1) r1 = rvjit_free_hreg h b r1 /\
  rvjit_free_hreg h (rvjit_free_hreg h b r1) r2
  = rvjit_free_hreg h (rvjit_free_hreg h b r2) r1.
Proof.
  unfold rvjit_free_hreg. cbn [hreg_mask set_hreg_mask].
  rewrite !set_hreg_mask_twice. split; f_equal.
  - now rewrite <- Z.lor_assoc, Z.lor_diag.
  - rewrite <- !Z.lor_assoc. f_equal. apply Z.lor_comm.
Qed.

(** X7: host register ids 32..63 are outside the allocator.  Freeing one
    never changes what [rvjit_try_claim_hreg] returns, and on a host with a
    32-bit [size_t] the mask [1ULL << hreg] is truncated to zero, so that
    the free does nothing at all. *)
Theorem rvjit_free_hreg_high_id (h : host_arch) (b : rvjit_block_t) (r : Z) :
  RVJIT_REGISTERS <= r < 64 ->
  fst (rvjit_try_claim_hreg h (rvjit_free_hreg h b r))
  = fst (rvjit_try_claim_hreg h b) /\
  (RVJIT_NATIVE_64BIT h = false -> rvjit_free_hreg h b r = b).
Proof.
  unfold RVJIT_REGISTERS. intros Hr.
  assert (H64 : Z.shiftl 1 r mod 2 ^ 64 = 2 ^ r).
  { rewrite Z.shiftl_1_l. apply Z.mod_small. split.
    - apply Z.pow_nonneg. lia.
    - apply Z.pow_lt_mono_r; lia. }
  split.
  - apply rvjit_try_claim_hreg_low_bits. unfold RVJIT_REGISTERS. intros j Hj.
    unfold rvjit_free_hreg, rvjit_hreg_mask, size_t_wrap.
    cbn [hreg_mask set_hreg_mask]. rewrite H64, Z.lor_spec.
    pose proof (size_t_bits_bounds h).
    rewrite Z.mod_pow2_bits_low, Z.pow2_bits_eqb by lia.
    replace (r =? j) with false by (symmetry; apply Z.eqb_neq; lia).
    apply orb_false_r.
  - intros H32. unfold rvjit_free_hreg, rvjit_hreg_mask, size_t_wrap, size_t_bits.
    rewrite H32, H64.
    replace (2 ^ r) with (2 ^ (r - 32) * 2 ^ 32)
      by (rewrite <- Z.pow_add_r by lia; f_equal; lia).
    rewrite Z.mod_mul by lia. rewrite Z.lor_0_r. apply set_hreg_mask_id.
Qed.

Lemma rvjit_free_hreg_high_id_witness :
  RVJIT_REGISTERS <= 40 < 64 /\
  fst (rvjit_try_claim_hreg HOST_X86_64 (rvjit_free_hreg HOST_X86_64 sample_block_full 40))
  = REG_ILL /\
  rvjit_free_hreg HOST_ARM sample_block 40 = sample_block.
Proof.
  assert (H : RVJIT_REGISTERS <= 40 < 64) by (unfold RVJIT_REGISTERS; lia).
  split; [exact H|]. split.
  - exact (proj1 (rvjit_free_hreg_high_id HOST_X86_64 sample_block_full 40 H)).
  - exact (proj2 (rvjit_free_hreg_high_id HOST_ARM sample_block 40 H) eq_refl).
Defined.

(** After [k] calls of [rvjit_try_claim_hreg] no register below [k] is
    free. *)
Lemma try_claim_iter_low_clear (h : host_arch) (b : rvjit_block_t) (k : nat) :
  forall j, 0 <= j < Z.of_nat k -> j < RVJIT_REGISTERS ->
    Z.testbit
      (hreg_mask (Nat.iter k (fun x => snd (rvjit_try_claim_hreg h x)) b)) j
    = false.
Proof.
  induction k as [|k IH]; intros j Hj Hj32; [lia|].
  rewrite Nat.iter_succ.
  set (bk := Nat.iter k (fun x => snd (rvjit_try_claim_hreg h x)) b) in *.
  destruct (rvjit_try_claim_hreg_spec h bk)
    as [(r & Hr & Hset & Hlow & Heq) | (Hnone & Heq)]; rewrite Heq;
    cbn [snd hreg_mask set_hreg_mask].
  - rewrite testbit_claimed_mask_low by (unfold RVJIT_REGISTERS in *; lia).
    assert (Hk : Z.of_nat k <= r).
    { destruct (Z.lt_ge_cases r (Z.of_nat k)) as [Hlt|]; [|assumption].
      rewrite IH in Hset by lia. discriminate. }
    destruct (Z.eqb_spec r j) as [->|Hne]; [apply andb_false_r|].
    rewrite Hlow by lia. reflexivity.
  - apply Hnone. lia.
Qed.

(** X8: the pool holds at most 32 registers: after 32 calls of
    [rvjit_try_claim_hreg], whatever the mask was, the next call answers
    [REG_ILL]. *)
Theorem rvjit_try_claim_hreg_exhausts (h : host_arch) (b : rvjit_block_t) :
  fst (rvjit_try_claim_hreg h
         (Nat.iter 32 (fun x => snd (rvjit_try_claim_hreg h x)) b))
  = REG_ILL.
Proof.
  apply (proj1 (rvjit_try_claim_hreg_ill_iff_aux h _)).
  intros j Hj. apply try_claim_iter_low_clear; unfold RVJIT_REGISTERS in *; lia.
Qed.

(** X9: [rvjit_claim_hreg] returns a valid register index whenever
    [rvjit_reclaim_hreg] does: it never returns [REG_ILL] of its own. *)
Theorem rvjit_claim_hreg_valid (h : host_arch)
    (reclaim : rvjit_block_t -> Z * rvjit_block_t) (b : rvjit_block_t) :
  (forall x, 0 <= fst (reclaim x) < RVJIT_REGISTERS) ->
  0 <= fst (rvjit_claim_hreg h reclaim b) < RVJIT_REGISTERS.
Proof.
  intros Hrec. unfold rvjit_claim_hreg.
  destruct (rvjit_try_claim_hreg_spec h b)
    as [(r & Hr & _ & _ & Heq) | (_ & Heq)]; rewrite Heq.
  - replace (r =? REG_ILL) with false
      by (symmetry; apply Z.eqb_neq; unfold RVJIT_REGISTERS, REG_ILL in *; lia).
    exact Hr.
  - rewrite Z.eqb_refl. apply Hrec.
Qed.

Lemma rvjit_claim_hreg_valid_witness :
  (forall x, 0 <= fst (sample_reclaim x) < RVJIT_REGISTERS) /\
  0 <= fst (rvjit_claim_hreg HOST_X86_64 sample_reclaim sample_block_full)
  < RVJIT_REGISTERS.
Proof.
  assert (H : forall x, 0 <= fst (sample_reclaim x) < RVJIT_REGISTERS)
    by (intros x; unfold RVJIT_REGISTERS; cbn; lia).
  split; [exact H|].
  exact (rvjit_claim_hreg_valid HOST_X86_64 sample_reclaim sample_block_full H).
Defined.

(** * Further properties of the working buffer *)

(** One append that fits in the free space plus one growth step: what it
    returns, in full. *)
Lemma rvjit_put_code_step (h : host_arch) (uninit : nat -> Byte.byte)
    (b : rvjit_block_t) (inst : list Byte.byte) (n : Z) :
  buffer_ok h b ->
  0 <= n ->
  (Z.to_nat n <= length inst)%nat ->
  space b + 1024 < 2 ^ size_t_bits h ->
  size b + n <= space b + 1024 ->
  exists b',
    rvjit_put_code h uninit b inst n = Some b' /\
    size b' = size b + n /\
    buffer_ok h b' /\
    space b' = (if space b <? size b + n then space b + 1024 else space b) /\
    used_code b' = used_code b ++ take (Z.to_nat n) inst.
Proof.
  intros (Hlen & Hsz & Hsp) Hn Hinst Hrep Hfit.
  assert (Hw1 : size_t_wrap h (size b + n) = size b + n)
    by (apply size_t_wrap_small; unfold size_t_range; lia).
  assert (Hw2 : size_t_wrap h (space b + 1024) = space b + 1024)
    by (apply size_t_wrap_small; unfold size_t_range; lia).
  assert (Hgrow :
    size (put_code_grow h uninit b n) = size b /\
    space (put_code_grow h uninit b n)
    = (if space b <? size b + n then space b + 1024 else space b) /\
    Z.of_nat (length (code (put_code_grow h uninit b n)))
    = space (put_code_grow h uninit b n) /\
    take (Z.to_nat (size b)) (code (put_code_grow h uninit b n))
    = take (Z.to_nat (size b)) (code b)).
  { unfold put_code_grow. rewrite Hw1, Hw2.
    destruct (Z.ltb_spec (space b) (size b + n)) as [Hlt|Hge]; cbn.
    - rewrite length_safe_realloc. repeat split; try lia.
      unfold safe_realloc. rewrite take_app_le by (rewrite length_take; lia).
      rewrite take_take. f_equal. lia.
    - repeat split; lia. }
  destruct Hgrow as (Hs1 & Hsp1 & Hlen1 & Hpre).
  assert (Hfit1 : size b + n <= space (put_code_grow h uninit b n)).
  { rewrite Hsp1. destruct (Z.ltb_spec (space b) (size b + n)); lia. }
  unfold rvjit_put_code.
  rewrite memcpy_in_bounds by lia.
  eexists. split; [reflexivity|]. cbn. rewrite Hs1, Hw1.
  split; [reflexivity|]. split; [|split; [exact Hsp1|]].
  - unfold buffer_ok. cbn.
    rewrite !length_app, !length_take, length_drop.
    destruct (Z.ltb_spec (space b) (size b + n)); repeat split; lia.
  - unfold used_code. cbn. rewrite app_assoc.
    rewrite take_app_length' by (rewrite length_app, !length_take; lia).
    now rewrite Hpre.
Qed.

(** An append beyond the free space plus one growth step is out of
    bounds. *)
Lemma rvjit_put_code_overflow (h : host_arch) (uninit : nat -> Byte.byte)
    (b : rvjit_block_t) (inst : list Byte.byte) (n : Z) :
  buffer_ok h b ->
  0 <= n ->
  space b + 1024 < 2 ^ size_t_bits h ->
  space b + 1024 < size b + n ->
  rvjit_put_code h uninit b inst n = None.
Proof.
  intros (Hlen & Hsz & Hsp) Hn Hrep Hover.
  assert (Hw2 : size_t_wrap h (space b + 1024) = space b + 1024)
    by (apply size_t_wrap_small; unfold size_t_range; lia).
  unfold rvjit_put_code.
  destruct (memcpy _ _ _ _) as [out|] eqn:Hcpy; [exfalso|reflexivity].
  apply memcpy_Some in Hcpy as (Hbound & _ & _).
  pose proof (put_code_grow_fields h uninit b n) as Hf. cbn zeta in Hf.
  destruct Hf as (_ & _ & Hsize & _). rewrite Hsize in Hbound.
  destruct (put_code_grow_cases h uninit b n) as [E|E]; rewrite E in Hbound.
  - lia.
  - cbn in Hbound. rewrite length_safe_realloc, Hw2 in Hbound. lia.
Qed.

(** X10: an append that fits in the free space plus one growth step puts
    the chunk right behind the bytes in use, advances [size] by the chunk's
    length, keeps the buffer invariant, and grows [space] by 1024 exactly
    when the chunk did not fit in the free space. *)
Theorem rvjit_put_code_appends (h : host_arch) (uninit : nat -> Byte.byte)
    (b : rvjit_block_t) (inst : list Byte.byte) (n : Z) :
  buffer_ok h b ->
  0 <= n ->
  (Z.to_nat n <= length inst)%nat ->
  space b + 1024 < 2 ^ size_t_bits h ->
  size b + n <= space b + 1024 ->
  exists b',
    rvjit_put_code h uninit b inst n = Some b' /\
    used_code b' = used_code b ++ take (Z.to_nat n) inst /\
    size b' = size b + n /\
    space b' = (if space b <? size b + n then space b + 1024 else space b) /\
    buffer_ok h b'.
Proof.
  intros Hok Hn Hinst Hrep Hfit.
  destruct (rvjit_put_code_step h uninit b inst n Hok Hn Hinst Hrep Hfit)
    as (b' & Hput & Hsize & Hok' & Hspace & Hused).
  exists b'. auto.
Qed.

Lemma rvjit_put_code_appends_witness :
  buffer_ok HOST_X86_64 sample_block /\
  exists b',
    rvjit_put_code HOST_X86_64 (fun _ => Byte.xcc) sample_block
      [Byte.x48; Byte.x89; Byte.xc3] 3 = Some b' /\
    used_code b' = used_code sample_block ++ take (Z.to_nat 3)
                                               [Byte.x48; Byte.x89; Byte.xc3] /\
    size b' = size sample_block + 3 /\
    space b' = (if space sample_block <? size sample_block + 3
                then space sample_block + 1024 else space sample_block) /\
    buffer_ok HOST_X86_64 b'.
Proof.
  assert (H1 : buffer_ok HOST_X86_64 sample_block)
    by (unfold buffer_ok; vm_compute; repeat split; congruence).
  split; [exact H1|].
  apply (rvjit_put_code_appends HOST_X86_64 (fun _ => Byte.xcc) sample_block
           [Byte.x48; Byte.x89; Byte.xc3] 3 H1).
  - lia.
  - vm_compute. lia.
  - vm_compute. reflexivity.
  - vm_compute. congruence.
Defined.

(** X11: appending an empty chunk changes nothing: the block is returned
    as it was, without growing the buffer. *)
Theorem rvjit_put_code_empty (h : host_arch) (uninit : nat -> Byte.byte)
    (b : rvjit_block_t) (inst : list Byte.byte) :
  buffer_ok h b ->
  rvjit_put_code h uninit b inst 0 = Some b.
Proof.
  intros (Hlen & Hsz & Hsp).
  assert (Hw : size_t_wrap h (size b + 0) = size b)
    by (rewrite Z.add_0_r; apply size_t_wrap_small; unfold size_t_range; lia).
  unfold rvjit_put_code, put_code_grow. rewrite Hw.
  replace (space b <? size b) with false by (symmetry; apply Z.ltb_ge; lia).
  rewrite memcpy_in_bounds by lia.
  change (Z.to_nat 0) with 0%nat. rewrite take_0, Nat.add_0_r. cbn [app].
  rewrite take_drop, Hw. now destruct b.
Qed.

Lemma rvjit_put_code_empty_witness :
  buffer_ok HOST_ARM sample_block /\
  rvjit_put_code HOST_ARM (fun _ => Byte.xcc) sample_block [] 0 = Some sample_block.
Proof.
  assert (H1 : buffer_ok HOST_ARM sample_block)
    by (unfold buffer_ok; vm_compute; repeat split; congruence).
  split; [exact H1|].
  exact (rvjit_put_code_empty HOST_ARM (fun _ => Byte.xcc) sample_block [] H1).
Defined.

(** X12: for a buffer that satisfies its invariant, the [memcpy] of
    [rvjit_put_code] runs past the end of the buffer exactly when the chunk
    needs more than the free space plus one growth step of 1024 bytes. *)
Theorem rvjit_put_code_fails_iff (h : host_arch) (uninit : nat -> Byte.byte)
    (b : rvjit_block_t) (inst : list Byte.byte) (n : Z) :
  buffer_ok h b ->
  0 <= n ->
  (Z.to_nat n <= length inst)%nat ->
  space b + 1024 < 2 ^ size_t_bits h ->
  (rvjit_put_code h uninit b inst n = None <-> space b + 1024 < size b + n).
Proof.
  intros Hok Hn Hinst Hrep. split.
  - intros Hnone. destruct (Z.lt_ge_cases (space b + 1024) (size b + n))
      as [Hlt|Hge]; [assumption|].
    destruct (rvjit_put_code_step h uninit b inst n Hok Hn Hinst Hrep Hge)
      as (b' & Hput & _). congruence.
  - now apply rvjit_put_code_overflow.
Qed.

Lemma rvjit_put_code_fails_iff_witness :
  buffer_ok HOST_X86_64 sample_block /\
  (rvjit_put_code HOST_X86_64 (fun _ => Byte.xcc) sample_block
     (replicate (Z.to_nat 1025) Byte.x90) 1025 = None <->
   space sample_block + 1024 < size sample_block + 1025).
Proof.
  assert (H1 : buffer_ok HOST_X86_64 sample_block)
    by (unfold buffer_ok; vm_compute; repeat split; congruence).
  split; [exact H1|].
  apply (rvjit_put_code_fails_iff HOST_X86_64 (fun _ => Byte.xcc) sample_block
           (replicate (Z.to_nat 1025) Byte.x90) 1025 H1).
  - lia.
  - rewrite length_replicate. lia.
  - vm_compute. reflexivity.
Defined.

(** X13: after an append the block is non-empty exactly when it was
    non-empty before or the chunk has at least one byte. *)
Theorem rvjit_block_nonempty_put_code (h : host_arch) (uninit : nat -> Byte.byte)
    (b b' : rvjit_block_t) (inst : list Byte.byte) (n : Z) :
  buffer_ok h b ->
  0 <= n ->
  (Z.to_nat n <= length inst)%nat ->
  space b + 1024 < 2 ^ size_t_bits h ->
  rvjit_put_code h uninit b inst n = Some b' ->
  rvjit_block_nonempty b' = rvjit_block_nonempty b || (0 <? n).
Proof.
  intros Hok Hn Hinst Hrep Hput.
  assert (Hfit : size b + n <= space b + 1024).
  { destruct (Z.lt_ge_cases (space b + 1024) (size b + n)) as [Hlt|]; [|assumption].
    rewrite (rvjit_put_code_overflow h uninit b inst n Hok Hn Hrep Hlt) in Hput.
    discriminate. }
  destruct (rvjit_put_code_step h uninit b inst n Hok Hn Hinst Hrep Hfit)
    as (b1 & Hput1 & Hsize & _).
  rewrite Hput in Hput1. injection Hput1 as <-.
  unfold rvjit_block_nonempty. rewrite Hsize.
  destruct Hok as (_ & Hsz & _).
  destruct (Z.eqb_spec (size b + n) 0), (Z.eqb_spec (size b) 0),
    (Z.ltb_spec 0 n); cbn; try reflexivity; lia.
Qed.

Lemma rvjit_block_nonempty_put_code_witness :
  buffer_ok HOST_I386 sample_block /\
  rvjit_block_nonempty sample_block = false /\
  rvjit_block_nonempty
    (set_size 1 (set_code ([Byte.xc3] ++ replicate (Z.to_nat 1023) Byte.xcc)
                   (set_space 1024 sample_block)))
  = rvjit_block_nonempty sample_block || (0 <? 1).
Proof.
  assert (H1 : buffer_ok HOST_I386 sample_block)
    by (unfold buffer_ok; vm_compute; repeat split; congruence).
  split; [exact H1|]. split; [reflexivity|].
  apply (rvjit_block_nonempty_put_code HOST_I386 (fun _ => Byte.xcc) sample_block
           _ [Byte.xc3] 1 H1).
  - lia.
  - vm_compute. lia.
  - vm_compute. reflexivity.
  - vm_compute. reflexivity.
Defined.

Example put_codes_sample :
  option_map used_code
    (rvjit_put_codes HOST_X86_64 (fun _ => Byte.xcc) sample_block
       [[Byte.x48; Byte.x89; Byte.xc3]; []; [Byte.xc3]])
  = Some [Byte.x48; Byte.x89; Byte.xc3; Byte.xc3].
Proof. vm_compute. reflexivity. Qed.

(** X14: emitting a sequence of chunks of at most 1024 bytes each, one
    [rvjit_put_code] per chunk, never runs out of the buffer: the bytes in
    use afterwards are the bytes in use before followed by the chunks in
    order, [size] has advanced by their total length, and the buffer
    invariant holds again. *)
Theorem rvjit_put_codes_concat (h : host_arch) (uninit : nat -> Byte.byte)
    (chunks : list (list Byte.byte)) (b : rvjit_block_t) :
  buffer_ok h b ->
  Forall (fun c => (length c <= 1024)%nat) chunks ->
  space b + 1024 * Z.of_nat (length chunks) < 2 ^ size_t_bits h ->
  exists b',
    rvjit_put_codes h uninit b chunks = Some b' /\
    used_code b' = used_code b ++ concat chunks /\
    size b' = size b + Z.of_nat (length (concat chunks)) /\
    buffer_ok h b'.
Proof.
  revert b. induction chunks as [|c chunks IH]; intros b Hok Hall Hrep.
  - exists b. cbn. rewrite app_nil_r, Z.add_0_r. auto.
  - apply Forall_cons in Hall as [Hc Hall].
    cbn [length] in Hrep. cbn [rvjit_put_codes].
    pose proof Hok as (Hlen & Hsz & Hsp).
    destruct (rvjit_put_code_step h uninit b c (Z.of_nat (length c)) Hok)
      as (b1 & Hput & Hsize1 & Hok1 & Hspace1 & Hused1); try lia.
    rewrite Hput.
    assert (Hsp1 : space b1 <= space b + 1024).
    { rewrite Hspace1. destruct (_ <? _); lia. }
    destruct (IH b1 Hok1 Hall ltac:(lia)) as (b' & Hputs & Hused & Hsize & Hok').
    exists b'. split; [assumption|]. split; [|split; [|assumption]].
    + rewrite Hused, Hused1, Nat2Z.id, take_ge by lia.
      cbn [concat]. now rewrite app_assoc.
    + rewrite Hsize, Hsize1. cbn [concat]. rewrite length_app. lia.
Qed.

Lemma rvjit_put_codes_concat_witness :
  buffer_ok HOST_I386 sample_block /\
  Forall (fun c : list Byte.byte => (length c <= 1024)%nat)
    [[Byte.x48; Byte.x89; Byte.xc3]; [Byte.xc3]] /\
  exists b',
    rvjit_put_codes HOST_I386 (fun _ => Byte.xcc) sample_block
      [[Byte.x48; Byte.x89; Byte.xc3]; [Byte.xc3]] = Some b' /\
    used_code b' = used_code sample_block
                   ++ concat [[Byte.x48; Byte.x89; Byte.xc3]; [Byte.xc3]] /\
    size b' = size sample_block
              + Z.of_nat (length (concat [[Byte.x48; Byte.x89; Byte.xc3]; [Byte.xc3]])) /\
    buffer_ok HOST_I386 b'.
Proof.
  assert (H1 : buffer_ok HOST_I386 sample_block)
    by (unfold buffer_ok; vm_compute; repeat split; congruence).
  assert (H2 : Forall (fun c : list Byte.byte => (length c <= 1024)%nat)
                 [[Byte.x48; Byte.x89; Byte.xc3]; [Byte.xc3]])
    by (repeat constructor; cbn; lia).
  split; [exact H1|]. split; [exact H2|].
  apply (rvjit_put_codes_concat HOST_I386 (fun _ => Byte.xcc) _ sample_block H1 H2).
  vm_compute. reflexivity.
Defined.

(** * The allocator and the buffer do not interfere *)

(** The loop of [rvjit_try_claim_hreg] reads [hreg_mask] only. *)
Lemma try_claim_loop_mask_only (h : host_arch) (fuel : nat) :
  forall (i : Z) (b1 b2 : rvjit_block_t),
    hreg_mask b1 = hreg_mask b2 ->
    fst (try_claim_loop h fuel i b1) = fst (try_claim_loop h fuel i b2) /\
    hreg_mask (snd (try_claim_loop h fuel i b1))
    = hreg_mask (snd (try_claim_loop h fuel i b2)).
Proof.
  induction fuel as [|fuel IH]; intros i b1 b2 Hm; cbn [try_claim_loop].
  - split; [reflexivity | exact Hm].
  - rewrite Hm. destruct (i <? RVJIT_REGISTERS); [|split; [reflexivity | exact Hm]].
    destruct (negb _); [split; reflexivity|].
    now apply IH.
Qed.

(** It writes [hreg_mask] only. *)
Lemma try_claim_loop_frame (h : host_arch) (fuel : nat) :
  forall (i : Z) (b : rvjit_block_t),
    snd (try_claim_loop h fuel i b)
    = set_hreg_mask (hreg_mask (snd (try_claim_loop h fuel i b))) b.
Proof.
  induction fuel as [|fuel IH]; intros i b; cbn [try_claim_loop].
  - cbn [snd]. symmetry. apply set_hreg_mask_id.
  - destruct (i <? RVJIT_REGISTERS); [|symmetry; apply set_hreg_mask_id].
    destruct (negb _); [reflexivity|]. apply IH.
Qed.

Lemma put_code_set_hreg_mask (h : host_arch) (uninit : nat -> Byte.byte)
    (b : rvjit_block_t) (inst : list Byte.byte) (n m : Z) :
  rvjit_put_code h uninit (set_hreg_mask m b) inst n
  = option_map (set_hreg_mask m) (rvjit_put_code h uninit b inst n).
Proof.
  unfold rvjit_put_code, put_code_grow. cbn [size space code set_hreg_mask].
  destruct (space b <? _); cbn [size space code set_code set_space];
    destruct (memcpy _ _ _ _); reflexivity.
Qed.

Lemma put_code_hreg_mask (h : host_arch) (uninit : nat -> Byte.byte)
    (b b' : rvjit_block_t) (inst : list Byte.byte) (n : Z) :
  rvjit_put_code h uninit b inst n = Some b' -> hreg_mask b' = hreg_mask b.
Proof.
  unfold rvjit_put_code. intros Hput.
  destruct (memcpy _ _ _ _); [|discriminate]. injection Hput as <-.
  pose proof (put_code_grow_fields h uninit b n) as Hf. cbn zeta in Hf.
  destruct Hf as (_ & _ & _ & Hm & _). exact Hm.
Qed.

(** X15: emitting code and claiming a register commute: an append does not
    change which register the next claim hands out, and claiming before or
    after the append leads to the same block. *)
Theorem rvjit_put_code_try_claim_commute (h : host_arch) (uninit : nat -> Byte.byte)
    (b : rvjit_block_t) (inst : list Byte.byte) (n : Z) :
  rvjit_put_code h uninit (snd (rvjit_try_claim_hreg h b)) inst n
  = option_map (fun x => snd (rvjit_try_claim_hreg h x))
      (rvjit_put_code h uninit b inst n) /\
  (forall b', rvjit_put_code h uninit b inst n = Some b' ->
              fst (rvjit_try_claim_hreg h b') = fst (rvjit_try_claim_hreg h b)).
Proof.
  unfold rvjit_try_claim_hreg. split.
  - rewrite (try_claim_loop_frame h _ 0 b), put_code_set_hreg_mask.
    destruct (rvjit_put_code h uninit b inst n) as [b'|] eqn:Hput; [|reflexivity].
    cbn [option_map]. f_equal.
    rewrite (try_claim_loop_frame h _ 0 b'). f_equal.
    apply try_claim_loop_mask_only. symmetry.
    exact (put_code_hreg_mask h uninit b b' inst n Hput).
  - intros b' Hput. apply try_claim_loop_mask_only.
    exact (put_code_hreg_mask h uninit b b' inst n Hput).
Qed.

(** X16: [rvjit_free_hreg] on a register id below 32 sets bit [r] of
    [hreg_mask] and changes no other bit. *)
Theorem rvjit_free_hreg_sets_bit (h : host_arch) (b : rvjit_block_t) (r j : Z) :
  0 <= r < RVJIT_REGISTERS ->
  0 <= j ->
  Z.testbit (hreg_mask (rvjit_free_hreg h b r)) j
  = Z.testbit (hreg_mask b) j || (j =? r).
Proof.
  unfold RVJIT_REGISTERS. intros Hr Hj.
  unfold rvjit_free_hreg. cbn [hreg_mask set_hreg_mask].
  rewrite rvjit_hreg_mask_pow2, Z.lor_spec, Z.pow2_bits_eqb by lia.
  now rewrite (Z.eqb_sym r j).
Qed.

Lemma rvjit_free_hreg_sets_bit_witness :
  0 <= 5 < RVJIT_REGISTERS /\
  Z.testbit (hreg_mask (rvjit_free_hreg HOST_X86_64 sample_block 5)) 5
  = Z.testbit (hreg_mask sample_block) 5 || (5 =? 5).
Proof.
  assert (H : 0 <= 5 < RVJIT_REGISTERS) by (unfold RVJIT_REGISTERS; lia).
  split; [exact H|].
  exact (rvjit_free_hreg_sets_bit HOST_X86_64 sample_block 5 5 H ltac:(lia)).
Defined.
